(** * A boundary-tag allocator: [simple_alloc.cpp]

    Shallow embedding of [mysetup], [myalloc], [myfree] and the navigation
    helpers of [src/simple_alloc/simple_alloc.cpp], and proofs about them.

    Modelling choices.
    - Pointers are integers (byte addresses, [Z]); [nullptr] is [0].  Pointer
      arithmetic is exact: it is not reduced modulo the width of a pointer.
    - Memory is typed at the granularity of the [tag] object: [heap s a] is the
      [tag] stored at byte address [a], and a store of a [tag] at [a] changes
      that object only.  All accesses of the program go through [tag*]; in an
      arena whose sizes are multiples of 8 they are all a multiple of 8 bytes
      apart, so no two of them overlap in part.  Where a pointer or a size
      read from memory may be anything, statements about stores are made
      only for pointers and tags that keep this distance ([aligned_to],
      [tags_aligned]).
    - [std::size_t] arithmetic wraps modulo [2^64] ([wrap64]); the bit-field
      [size : 63] wraps modulo [2^63] when it is written ([wrap63]).
    - [assert] aborts when assertions are compiled in ([Strict]) and is absent
      under [NDEBUG] ([Relaxed]).
    - The [while] loops take fuel; running out of it is the outcome
      [Timeout]. *)

From Stdlib Require Import ZArith List Lia Bool Permutation.
Import ListNotations.
Open Scope Z_scope.

(** ** Data *)

(** [struct tag { size_t size : 63; bool busy : 1; }] *)
Record tag : Type := mkTag { size : Z; busy : bool }.

(** [sizeof(tag)], fixed by the [static_assert] of [mysetup]. *)
Definition sizeof_tag : Z := 8.

Definition nullptr : Z := 0.

Definition wrap64 (z : Z) : Z := z mod 2 ^ 64.
Definition wrap63 (z : Z) : Z := z mod 2 ^ 63.

(** The memory, and the two globals of [namespace mem]. *)
Record state : Type := mkState {
  heap : Z -> tag;
  mem_begin : Z;
  mem_end : Z
}.

Definition upd (h : Z -> tag) (a : Z) (t : tag) : Z -> tag :=
  fun x => if x =? a then t else h x.

(** Whether [assert] is compiled in. *)
Inductive checking : Type := Strict | Relaxed.

(** ** The monad of the program: state, abort, fuel *)

Inductive outcome (A : Type) : Type :=
| Done (a : A) (s : state)
| Abort
| Timeout.
Arguments Done {A} a s.
Arguments Abort {A}.
Arguments Timeout {A}.

Definition M (A : Type) : Type := checking -> state -> outcome A.

Definition ret {A} (a : A) : M A := fun _ s => Done a s.

Definition bind {A B} (m : M A) (k : A -> M B) : M B :=
  fun c s =>
    match m c s with
    | Done a s' => k a c s'
    | Abort => Abort
    | Timeout => Timeout
    end.

Declare Scope alloc_scope.
Delimit Scope alloc_scope with alloc.
Notation "x <- m ;; k" := (bind m (fun x => k))
  (at level 61, m at next level, right associativity) : alloc_scope.
Notation "m ;; k" := (bind m (fun _ => k))
  (at level 61, right associativity) : alloc_scope.
Open Scope alloc_scope.

Definition timeout {A} : M A := fun _ _ => Timeout.

Definition assert_ (b : bool) : M unit :=
  fun c s =>
    match c with
    | Strict => if b then Done tt s else Abort
    | Relaxed => Done tt s
    end.

Definition load (a : Z) : M tag := fun _ s => Done (heap s a) s.

Definition store (a : Z) (t : tag) : M unit :=
  fun _ s => Done tt (mkState (upd (heap s) a t) (mem_begin s) (mem_end s)).

(** [p->size = z] and [p->busy = b]: one field of the tag at [p]. *)
Definition store_size (a : Z) (z : Z) : M unit :=
  t <- load a ;; store a (mkTag (wrap63 z) (busy t)).

Definition store_busy (a : Z) (b : bool) : M unit :=
  t <- load a ;; store a (mkTag (size t) b).

(** [*dst = *src] *)
Definition copy (dst src : Z) : M unit :=
  v <- load src ;; store dst v.

Definition get_begin : M Z := fun _ s => Done (mem_begin s) s.
Definition get_end : M Z := fun _ s => Done (mem_end s) s.

Definition set_begin (a : Z) : M unit :=
  fun _ s => Done tt (mkState (heap s) a (mem_end s)).

Definition set_end (a : Z) : M unit :=
  fun _ s => Done tt (mkState (heap s) (mem_begin s) a).

(** ** Navigation *)

Definition head (tl : Z) : M Z :=
  t <- load tl ;; ret (tl + sizeof_tag - size t).

Definition tail (hd : Z) : M Z :=
  e <- get_end ;;
  assert_ (negb (hd =? e)) ;;
  t <- load hd ;;
  ret (hd + size t - sizeof_tag).

Definition prev_tail (hd : Z) : M Z :=
  b <- get_begin ;;
  assert_ (negb (hd =? b)) ;;
  ret (hd - sizeof_tag).

Definition next (hd : Z) : M Z :=
  e <- get_end ;;
  assert_ (negb (hd =? e)) ;;
  t <- load hd ;;
  ret (hd + size t).

Definition prev (hd : Z) : M Z :=
  b <- get_begin ;;
  assert_ (negb (hd =? b)) ;;
  pt <- prev_tail hd ;;
  head pt.

Definition user_mem (hd : Z) : M Z :=
  e <- get_end ;;
  assert_ (negb (hd =? e)) ;;
  ret (hd + sizeof_tag).

Definition from_user_mem (p : Z) : Z := p - sizeof_tag.

(** ** [mysetup] *)

Definition mysetup (buf : Z) (sz : Z) : M unit :=
  let r := buf in
  store r (mkTag (wrap63 sz) false) ;;
  t <- tail r ;;
  copy t r ;;
  set_begin r ;;
  n <- next r ;;
  set_end n.

(** ** [myalloc] *)

(** [((sz + sizeof(tag) * 2 + 7) / 8) * 8] in [size_t]. *)
Definition block_size (sz : Z) : Z :=
  wrap64 (wrap64 (sz + sizeof_tag * 2 + 7) / 8 * 8).

(** The [while] loop; [bsize] is the local [size] of the source. *)
Fixpoint myalloc_loop (fuel : nat) (bsize : Z) (block : Z) : M Z :=
  match fuel with
  | O => timeout
  | S fuel' =>
    e <- get_end ;;
    if block =? e then ret nullptr
    else
      b <- load block ;;
      if negb (busy b) then
        if (bsize <=? size b)
           && (size b <=? wrap64 (bsize + sizeof_tag * 4)) then
          t <- tail block ;;
          store_busy block true ;;
          store_busy t true ;;
          user_mem block
        else if bsize <? size b then
          let rest_size := wrap64 (size b - bsize) in
          store_size block rest_size ;;
          t <- tail block ;;
          copy t block ;;
          new_block <- next block ;;
          store new_block (mkTag (wrap63 bsize) true) ;;
          t' <- tail new_block ;;
          copy t' new_block ;;
          user_mem new_block
        else
          n <- next block ;; myalloc_loop fuel' bsize n
      else
        n <- next block ;; myalloc_loop fuel' bsize n
  end.

Definition myalloc (fuel : nat) (sz : Z) : M Z :=
  if sz =? 0 then ret nullptr
  else
    block <- get_begin ;;
    myalloc_loop fuel (block_size sz) block.

(** ** [myfree] *)

(** [x->size += y->size; *tail(x) = *x;]: the two statements by which the
    block at [x] absorbs the block at [y], the same in both unions. *)
Definition absorb (x y : Z) : M unit :=
  xt <- load x ;;
  yt <- load y ;;
  store_size x (wrap64 (size xt + size yt)) ;;
  tl <- tail x ;;
  copy tl x.

(** [// Try union prev block]; returns the value of [block] afterwards. *)
Definition union_prev (block : Z) : M Z :=
  b <- get_begin ;;
  if negb (block =? b) then
    prv <- prev block ;;
    pt <- load prv ;;
    if negb (busy pt) then
      absorb prv block ;;
      ret prv
    else ret block
  else ret block.

(** [// Try union next block] *)
Definition union_next (block : Z) : M unit :=
  nxt <- next block ;;
  e <- get_end ;;
  if negb (nxt =? e) then
    nt <- load nxt ;;
    if negb (busy nt) then absorb block nxt
    else ret tt
  else ret tt.

Definition myfree (p : Z) : M unit :=
  if p =? nullptr then ret tt
  else
    b <- get_begin ;;
    e <- get_end ;;
    assert_ ((b <=? p) && (p <? e)) ;;
    if (p <? b) || (e <=? p) then ret tt
    else
      let block := from_user_mem p in
      t <- load block ;;
      assert_ (busy t) ;;
      if negb (busy t) then ret tt
      else
        store_busy block false ;;
        tl <- tail block ;;
        copy tl block ;;
        block' <- union_prev block ;;
        union_next block'.

(** ** [mydump]: the walk over the blocks *)

Fixpoint walk (fuel : nat) (p : Z) : M (list (Z * tag)) :=
  match fuel with
  | O => timeout
  | S fuel' =>
    e <- get_end ;;
    if p =? e then ret []
    else
      t <- load p ;;
      n <- next p ;;
      rest <- walk fuel' n ;;
      ret ((p, t) :: rest)
  end.

(** The lines [mydump] prints; nothing under [NDEBUG]. *)
Definition mydump (fuel : nat) : M (list (Z * tag)) :=
  fun c =>
    match c with
    | Strict => (b <- get_begin ;; walk fuel b) c
    | Relaxed => ret [] c
    end.

(** ** The partition of the arena into blocks *)

(** Sum of the sizes of a run of blocks. *)
Fixpoint total (l : list tag) : Z :=
  match l with
  | [] => 0
  | t :: l' => size t + total l'
  end.

(** A size a block may have: a multiple of 8, at least header plus footer. *)
Definition block_ok (t : tag) : Prop :=
  2 * sizeof_tag <= size t /\ size t mod 8 = 0.

(** [blocks h a e l]: following [next] from [a] in memory [h] meets exactly
    the blocks [l], in this order, and then reaches [e]; each block has its
    tag at its header and at its footer, and an admissible size. *)
Fixpoint blocks (h : Z -> tag) (a e : Z) (l : list tag) : Prop :=
  match l with
  | [] => a = e
  | t :: l' =>
      h a = t /\ h (a + size t - sizeof_tag) = t /\ block_ok t /\
      blocks h (a + size t) e l'
  end.

Definition arena (s : state) (l : list tag) : Prop :=
  blocks (heap s) (mem_begin s) (mem_end s) l.

(** The partition invariant: some list of blocks partitions the arena. *)
Definition partition_inv (s : state) : Prop := exists l, arena s l.

(** The arena starts at a non-null address and spans fewer than [2^63]
    bytes, the largest extent a tag can record. *)
Definition arena_ok (s : state) : Prop :=
  0 < mem_begin s /\ mem_end s - mem_begin s < 2 ^ 63.

(** Two consecutive free blocks somewhere in the walk. *)
Fixpoint adjacent_free (l : list tag) : bool :=
  match l with
  | t1 :: ((t2 :: _) as l') =>
      (negb (busy t1) && negb (busy t2)) || adjacent_free l'
  | _ => false
  end.

(** [p] is the payload position of the block [t], found after the blocks
    [l1] and before the blocks [l2]. *)
Definition payload_at (s : state) (l1 : list tag) (p : Z) : Prop :=
  p = mem_begin s + total l1 + sizeof_tag.

(** The spec's [roundUp8], in unbounded integers. *)
Definition roundUp8 (z : Z) : Z := (z + 7) / 8 * 8.

(** A block the scan of [myalloc] passes over for a block size [bs]. *)
Definition skipped (bs : Z) (t : tag) : Prop :=
  busy t = true \/ size t < bs.

(** ** What the operations do to the list of blocks *)

(** The state after a store. *)
Definition put (s : state) (a : Z) (t : tag) : state :=
  mkState (upd (heap s) a t) (mem_begin s) (mem_end s).

(** What the right union leaves of the block [u] and the blocks [l2]
    behind it. *)
Definition coalesce_right (u : tag) (l2 : list tag) : list tag :=
  match l2 with
  | [] => [u]
  | n :: l2' =>
      if busy n then u :: l2
      else mkTag (size u + size n) (busy u) :: l2'
  end.

(** What the left union leaves of the blocks [l1] in front of the block [u],
    and of [u]. *)
Fixpoint coalesce_left (l1 : list tag) (u : tag) : list tag * tag :=
  match l1 with
  | [] => ([], u)
  | q :: l1' =>
      match l1' with
      | [] =>
          if busy q then ([q], u)
          else ([], mkTag (size q + size u) (busy q))
      | _ :: _ =>
          let (l, u') := coalesce_left l1' u in (q :: l, u')
      end
  end.

(** The blocks after [myfree] released the busy block [t] between [l1] and
    [l2]. *)
Definition freed (l1 : list tag) (t : tag) (l2 : list tag) : list tag :=
  let (l1', u) := coalesce_left l1 (mkTag (size t) false) in
  l1' ++ coalesce_right u l2.

Definition head_busy (l : list tag) : bool :=
  match l with
  | [] => true
  | x :: _ => busy x
  end.

Fixpoint last_busy (l : list tag) : bool :=
  match l with
  | [] => true
  | x :: l' =>
      match l' with
      | [] => busy x
      | _ :: _ => last_busy l'
      end
  end.

(** What [myalloc] does on a partitioned arena, for a request whose block
    size does not wrap around. *)
Inductive alloc_result (s : state) (l : list tag) (bs : Z)
  : Z -> state -> list tag -> Prop :=
| alloc_none :
    Forall (skipped bs) l ->
    alloc_result s l bs nullptr s l
| alloc_whole l1 t l2 s' :
    l = l1 ++ t :: l2 -> Forall (skipped bs) l1 -> busy t = false ->
    bs <= size t <= bs + 4 * sizeof_tag ->
    alloc_result s l bs (mem_begin s + total l1 + sizeof_tag) s'
      (l1 ++ mkTag (size t) true :: l2)
| alloc_split l1 t l2 s' :
    l = l1 ++ t :: l2 -> Forall (skipped bs) l1 -> busy t = false ->
    bs + 4 * sizeof_tag < size t ->
    alloc_result s l bs
      (mem_begin s + total l1 + (size t - bs) + sizeof_tag) s'
      (l1 ++ mkTag (size t - bs) false :: mkTag bs true :: l2).

(** The headers a walk from [a] over the blocks [l] visits. *)
Fixpoint headers (a : Z) (l : list tag) : list (Z * tag) :=
  match l with
  | [] => []
  | t :: l' => (a, t) :: headers (a + size t) l'
  end.

(** The arguments of [myfree] considered: the null pointer, a pointer
    outside the arena, or the payload position of a block of the arena. *)
Definition free_arg_ok (s : state) (l : list tag) (p : Z) : Prop :=
  p = nullptr \/ p < mem_begin s \/ mem_end s <= p \/
  exists l1 t l2, l = l1 ++ t :: l2 /\ payload_at s l1 p.

Inductive free_result (l : list tag) : list tag -> Prop :=
| free_ignored : free_result l l
| free_released l1 t l2 :
    l = l1 ++ t :: l2 -> busy t = true ->
    free_result l (freed l1 t l2).

(** ** Releasing several pointers *)

(** The payload at offset [off] from the start of the blocks [l]: the blocks
    in front of its block, the block, the blocks behind it. *)
Fixpoint locate (l : list tag) (off : Z)
  : option (list tag * tag * list tag) :=
  match l with
  | [] => None
  | t :: l' =>
      if off =? sizeof_tag then Some ([], t, l')
      else
        match locate l' (off - size t) with
        | Some (l1, u, l2) => Some (t :: l1, u, l2)
        | None => None
        end
  end.

Definition release (l : list tag) (off : Z) : option (list tag) :=
  match locate l off with
  | Some (l1, t, l2) => if busy t then Some (freed l1 t l2) else None
  | None => None
  end.

Fixpoint release_all (l : list tag) (offs : list Z) : option (list tag) :=
  match offs with
  | [] => Some l
  | off :: offs' =>
      match release l off with
      | Some l' => release_all l' offs'
      | None => None
      end
  end.

(** [myfree] on each pointer of a list, in its order. *)
Fixpoint free_all (ps : list Z) : M unit :=
  match ps with
  | [] => ret tt
  | p :: ps' => myfree p ;; free_all ps'
  end.

(** ** The scenario of [test_myalloc], and concrete arenas *)

(** The four calls of [myalloc] of the test, in its order; the third one
    asks for the whole buffer. *)
Definition scenario_allocs (fuel : nat) : M (Z * Z * Z * Z) :=
  p1 <- myalloc fuel 16 ;;
  p2 <- myalloc fuel 512 ;;
  p0 <- myalloc fuel 1024 ;;
  p3 <- myalloc fuel 12 ;;
  ret (p1, p2, p0, p3).

(** A memory in which the blocks [l] are laid out from address [a] on. *)
Fixpoint layout (h : Z -> tag) (a : Z) (l : list tag) : Z -> tag :=
  match l with
  | [] => h
  | t :: l' =>
      layout (upd (upd h a t) (a + size t - sizeof_tag) t) (a + size t) l'
  end.

Definition zero_heap : Z -> tag := fun _ => mkTag 0 false.

(** Before [mysetup]: the globals of [namespace mem] are null. *)
Definition boot : state := mkState zero_heap nullptr nullptr.

(** An arena at address 4096 holding the blocks [l]. *)
Definition arena_at_4096 (l : list tag) : state :=
  mkState (layout zero_heap 4096 l) 4096 (4096 + total l).

Definition fresh_1024 : state := arena_at_4096 [mkTag 1024 false].

(** What a run leaves: its result and the headers a walk then visits. *)
Definition observe {A} (o : outcome A) : option (A * list (Z * tag)) :=
  match o with
  | Done a s =>
      match walk 64 (mem_begin s) Relaxed s with
      | Done l _ => Some (a, l)
      | _ => None
      end
  | _ => None
  end.

Definition three_blocks : list tag :=
  [mkTag 464 false; mkTag 528 true; mkTag 32 false].

(** A fresh arena of 1024 bytes with a tag that reads as busy in the eight
    bytes in front of it. *)
Definition stray_tag_in_front : state :=
  mkState (upd (layout zero_heap 4096 [mkTag 1024 false]) 4088
             (mkTag 16 true)) 4096 5120.

(** The state [myalloc 16] leaves of the fresh arena of 1024 bytes. *)
Definition after_first_alloc : state :=
  match myalloc 2 16 Strict fresh_1024 with
  | Done _ s => s
  | _ => fresh_1024
  end.

(** ** Builds with and without assertions *)

(** Whenever [m] returns with assertions compiled in, it returns the same
    result and state without them. *)
Definition assertions_only_abort {A} (m : M A) : Prop :=
  forall s a s', m Strict s = Done a s' -> m Relaxed s = Done a s'.

(** ** The memory an operation may write *)



(** ** The test driver *)

(** Modelled from the C library's contract: [memset (p, 0, n)] is not code
    of this repository.  It zeroes the [n] bytes at [p]: a tag lying wholly
    inside them becomes all zero bits, which is [{0, free}]; a tag that
    overlaps them in part becomes what [partial] says; every other tag
    stays. *)
Definition memset_zero (partial : Z -> tag) (p n : Z) : M unit :=
  fun _ s =>
    Done tt
      (mkState
         (fun x =>
            if (p <=? x) && (x + sizeof_tag <=? p + n) then mkTag 0 false
            else if (p - sizeof_tag <? x) && (x <? p + n) then partial x
            else heap s x)
         (mem_begin s) (mem_end s)).

(** The lambdas [my_allocator] and [my_deleter]; what they print is left
    out, the walk of [mydump] is not. *)
Definition my_allocator (fuel : nat) (sz : Z) : M Z :=
  p <- myalloc fuel sz ;;
  mydump fuel ;;
  ret p.

Definition my_deleter (fuel : nat) (my_ptr : Z) : M unit :=
  myfree my_ptr ;;
  mydump fuel ;;
  ret tt.

(** [test_myalloc], with the local array [buffer] at a given address. *)
Definition test_myalloc (fuel : nat) (partial : Z -> tag) (buffer : Z)
  : M unit :=
  let buffer_size := 1024 in
  mysetup buffer buffer_size ;;
  mydump fuel ;;
  p1 <- my_allocator fuel 16 ;;
  assert_ (negb (p1 =? nullptr)) ;;
  memset_zero partial p1 16 ;;
  p2 <- my_allocator fuel 512 ;;
  assert_ (negb (p2 =? nullptr)) ;;
  memset_zero partial p2 512 ;;
  p3 <- my_allocator fuel buffer_size ;;
  assert_ (p3 =? nullptr) ;;
  p3 <- my_allocator fuel 12 ;;
  assert_ (negb (p3 =? nullptr)) ;;
  memset_zero partial p3 12 ;;
  my_deleter fuel p1 ;;
  my_deleter fuel p2 ;;
  my_deleter fuel p3 ;;
  p1 <- my_allocator fuel (buffer_size - sizeof_tag * 2) ;;
  my_deleter fuel p1.

(** The arena spans the 1024 bytes at [buf] and holds the blocks [l]. *)
Definition arena_is (s : state) (buf : Z) (l : list tag) : Prop :=
  mem_begin s = buf /\ mem_end s = buf + 1024 /\ arena s l /\ arena_ok s.

(** ** Pointers [myfree] takes for payload positions *)

(** [myfree] behind its null check and its bounds check, from
    [tag* block = from_user_mem(p)] on, for the header [block] it
    resolved. *)
Definition myfree_resolved (block : Z) : M unit :=
  t <- load block ;;
  assert_ (busy t) ;;
  if negb (busy t) then ret tt
  else
    store_busy block false ;;
    tl <- tail block ;;
    copy tl block ;;
    block' <- union_prev block ;;
    union_next block'.

(** [x] is a multiple of 8 bytes away from [mem::begin]. *)
Definition aligned_to (s : state) (x : Z) : Prop :=
  (x - mem_begin s) mod 8 = 0.

(** Every word that is a multiple of 8 bytes away from [mem::begin] reads as
    a tag whose size is a 63-bit number and a multiple of 8.  Navigation
    from such a word then only reaches such words, so that no two tags the
    program touches overlap in part. *)
Definition tags_aligned (s : state) : Prop :=
  forall x, aligned_to s x ->
    0 <= size (heap s x) < 2 ^ 63 /\ size (heap s x) mod 8 = 0.

(** ** Arithmetic of sizes *)

Lemma wrap64_small z : 0 <= z < 2 ^ 64 -> wrap64 z = z.
Proof. intros H. unfold wrap64. now apply Z.mod_small. Qed.

Lemma wrap63_small z : 0 <= z < 2 ^ 63 -> wrap63 z = z.
Proof. intros H. unfold wrap63. now apply Z.mod_small. Qed.

Lemma roundUp8_bounds z : z <= roundUp8 z < z + 8.
Proof.
  unfold roundUp8.
  pose proof (Z.div_mod (z + 7) 8 ltac:(lia)).
  pose proof (Z.mod_pos_bound (z + 7) 8 ltac:(lia)). lia.
Qed.

Lemma roundUp8_mod z : roundUp8 z mod 8 = 0.
Proof. unfold roundUp8. apply Z.mod_mul. lia. Qed.

(** Without wrap-around [block_size] is the spec's formula. *)
Lemma block_size_roundUp8 sz :
  0 <= sz -> sz + 23 < 2 ^ 64 ->
  block_size sz = roundUp8 (sz + 2 * sizeof_tag).
Proof.
  intros H0 H1. unfold block_size, sizeof_tag.
  rewrite (wrap64_small (sz + 8 * 2 + 7)) by lia.
  pose proof (roundUp8_bounds (sz + 2 * 8)) as Hb.
  unfold roundUp8 in *.
  replace (sz + 8 * 2 + 7) with (sz + 2 * 8 + 7) by lia.
  apply wrap64_small. lia.
Qed.

(** ** Basic facts about [blocks] *)

Lemma total_app l1 l2 : total (l1 ++ l2) = total l1 + total l2.
Proof. induction l1 as [|t l1 IH]; simpl; lia. Qed.

Lemma blocks_total h l : forall a e, blocks h a e l -> e = a + total l.
Proof.
  induction l as [|t l IH]; simpl; intros a e H.
  - lia.
  - destruct H as (_ & _ & _ & H). apply IH in H. lia.
Qed.

Lemma blocks_total_nonneg h l : forall a e, blocks h a e l -> 0 <= total l.
Proof.
  induction l as [|t l IH]; simpl; intros a e H.
  - lia.
  - destruct H as (_ & _ & [Hs _] & H). apply IH in H.
    unfold sizeof_tag in Hs. lia.
Qed.

Lemma blocks_le h l a e : blocks h a e l -> a <= e.
Proof.
  intros H. pose proof (blocks_total _ _ _ _ H).
  pose proof (blocks_total_nonneg _ _ _ _ H). lia.
Qed.

Lemma blocks_app h l1 : forall l2 a e,
  blocks h a e (l1 ++ l2) <->
  blocks h a (a + total l1) l1 /\ blocks h (a + total l1) e l2.
Proof.
  induction l1 as [|t l1 IH]; simpl; intros l2 a e.
  - rewrite Z.add_0_r. tauto.
  - rewrite (IH l2 (a + size t) e).
    replace (a + (size t + total l1)) with (a + size t + total l1) by lia.
    tauto.
Qed.

(** [blocks] reads memory inside [[a, e)] only. *)
Lemma blocks_ext h h' l : forall a e,
  (forall x, a <= x < e -> h' x = h x) ->
  blocks h a e l -> blocks h' a e l.
Proof.
  induction l as [|t l IH]; simpl; intros a e Hx H.
  - exact H.
  - destruct H as (H1 & H2 & Hok & H).
    pose proof (blocks_le _ _ _ _ H) as Hle.
    pose proof Hok as [Hs _]. unfold sizeof_tag in *.
    repeat split.
    + rewrite Hx by lia. exact H1.
    + rewrite Hx by lia. exact H2.
    + apply Hok.
    + apply Hok.
    + apply IH; [|exact H]. intros x Hr. apply Hx. lia.
Qed.

Lemma blocks_upd_outside h l a e x t :
  x < a \/ e <= x -> blocks h a e l -> blocks (upd h x t) a e l.
Proof.
  intros Hx. apply blocks_ext. intros y Hy. unfold upd.
  destruct (Z.eqb_spec y x); [lia | reflexivity].
Qed.

Lemma blocks_sizes h l : forall a e,
  blocks h a e l -> Forall (fun t => 16 <= size t <= e - a) l.
Proof.
  induction l as [|t l IH]; simpl; intros a e H; constructor.
  - destruct H as (_ & _ & [Hs _] & H).
    pose proof (blocks_le _ _ _ _ H). unfold sizeof_tag in *. lia.
  - destruct H as (_ & _ & [Hs _] & H).
    apply IH in H. unfold sizeof_tag in *.
    eapply Forall_impl; [|exact H]. simpl. intros u Hu. lia.
Qed.

(** ** Running the navigation helpers *)

Lemma assert_true c s : assert_ true c s = Done tt s.
Proof. now destruct c. Qed.

Lemma upd_same h a t : upd h a t a = t.
Proof. unfold upd. now rewrite Z.eqb_refl. Qed.

Lemma tail_run c s hd :
  hd <> mem_end s ->
  tail hd c s = Done (hd + size (heap s hd) - sizeof_tag) s.
Proof.
  intros H. unfold tail, bind, get_end, load, ret.
  destruct (Z.eqb_spec hd (mem_end s)); [contradiction|].
  simpl. now rewrite assert_true.
Qed.

Lemma next_run c s hd :
  hd <> mem_end s ->
  next hd c s = Done (hd + size (heap s hd)) s.
Proof.
  intros H. unfold next, bind, get_end, load, ret.
  destruct (Z.eqb_spec hd (mem_end s)); [contradiction|].
  simpl. now rewrite assert_true.
Qed.

Lemma user_mem_run c s hd :
  hd <> mem_end s ->
  user_mem hd c s = Done (hd + sizeof_tag) s.
Proof.
  intros H. unfold user_mem, bind, get_end, ret.
  destruct (Z.eqb_spec hd (mem_end s)); [contradiction|].
  simpl. now rewrite assert_true.
Qed.

Lemma assert_neq c s x y : x <> y -> assert_ (negb (x =? y)) c s = Done tt s.
Proof.
  intros H. destruct (Z.eqb_spec x y); [contradiction|]. apply assert_true.
Qed.

Lemma prev_run c s hd :
  hd <> mem_begin s ->
  prev hd c s =
  Done (hd - size (heap s (hd - sizeof_tag))) s.
Proof.
  intros H. unfold prev, prev_tail, head, bind, get_begin, load, ret.
  rewrite (assert_neq c s _ _ H). rewrite (assert_neq c s _ _ H).
  unfold sizeof_tag. apply (f_equal (fun z => Done z s)). lia.
Qed.

Lemma copy_run c s dst src :
  copy dst src c s = Done tt (put s dst (heap s src)).
Proof. reflexivity. Qed.

Lemma bind_done {A B} (m : M A) (k : A -> M B) c s a s' :
  m c s = Done a s' -> bind m k c s = k a c s'.
Proof. intros H. unfold bind. now rewrite H. Qed.

(** ** The scan of [myalloc] *)

(** A block that is busy, or too small, is passed over. *)
Lemma myalloc_loop_skip c fuel s bs block :
  block <> mem_end s ->
  skipped bs (heap s block) ->
  myalloc_loop (S fuel) bs block c s =
  myalloc_loop fuel bs (block + size (heap s block)) c s.
Proof.
  intros He Hs. simpl. unfold bind at 1. unfold get_end.
  destruct (Z.eqb_spec block (mem_end s)); [contradiction|].
  unfold bind at 1. unfold load at 1.
  destruct Hs as [Hb | Hsz].
  - rewrite Hb. simpl. now rewrite (bind_done _ _ _ _ _ _ (next_run c s block He)).
  - destruct (busy (heap s block)); simpl.
    + now rewrite (bind_done _ _ _ _ _ _ (next_run c s block He)).
    + destruct (Z.leb_spec bs (size (heap s block))); [lia|]. simpl.
      destruct (Z.ltb_spec bs (size (heap s block))); [lia|].
      now rewrite (bind_done _ _ _ _ _ _ (next_run c s block He)).
Qed.

(** The scan passes over a whole run of such blocks. *)
Lemma myalloc_loop_skips c s bs l1 : forall fuel block e',
  blocks (heap s) block e' l1 ->
  e' <= mem_end s ->
  Forall (skipped bs) l1 ->
  myalloc_loop (length l1 + fuel) bs block c s =
  myalloc_loop fuel bs e' c s.
Proof.
  induction l1 as [|t l1 IH]; intros fuel block e' Hb Hle Hsk.
  - simpl in *. now subst.
  - destruct Hb as (H1 & H2 & Hok & Hb).
    inversion Hsk as [|? ? Ht Hl1]; subst.
    pose proof (blocks_le _ _ _ _ Hb) as Hle'.
    destruct Hok as [Hs16 _]. unfold sizeof_tag in Hs16.
    change (length (heap s block :: l1) + fuel)%nat
      with (S (length l1 + fuel)).
    rewrite myalloc_loop_skip.
    + apply IH; auto.
    + lia.
    + exact Ht.
Qed.

(** ** Stepping through a sequence of statements *)

Section Steps.
Context {B : Type} (k : Z -> M B) (ku : unit -> M B) (kt : tag -> M B).
Variables (c : checking) (s : state).

Lemma bind_load a : bind (load a) kt c s = kt (heap s a) c s.
Proof. reflexivity. Qed.

Lemma bind_store a t : bind (store a t) ku c s = ku tt c (put s a t).
Proof. reflexivity. Qed.

Lemma bind_copy dst src :
  bind (copy dst src) ku c s = ku tt c (put s dst (heap s src)).
Proof. reflexivity. Qed.

Lemma bind_store_busy a b :
  bind (store_busy a b) ku c s =
  ku tt c (put s a (mkTag (size (heap s a)) b)).
Proof. reflexivity. Qed.

Lemma bind_store_size a z :
  bind (store_size a z) ku c s =
  ku tt c (put s a (mkTag (wrap63 z) (busy (heap s a)))).
Proof. reflexivity. Qed.

Lemma bind_get_begin : bind get_begin k c s = k (mem_begin s) c s.
Proof. reflexivity. Qed.

Lemma bind_get_end : bind get_end k c s = k (mem_end s) c s.
Proof. reflexivity. Qed.

Lemma bind_assert b : b = true -> bind (assert_ b) ku c s = ku tt c s.
Proof. intros ->. unfold bind. now rewrite assert_true. Qed.

Lemma bind_assert_relaxed b s' :
  bind (assert_ b) ku Relaxed s' = ku tt Relaxed s'.
Proof. reflexivity. Qed.

Lemma bind_tail hd :
  hd <> mem_end s ->
  bind (tail hd) k c s = k (hd + size (heap s hd) - sizeof_tag) c s.
Proof. intros H. apply bind_done. now apply tail_run. Qed.

Lemma bind_next hd :
  hd <> mem_end s ->
  bind (next hd) k c s = k (hd + size (heap s hd)) c s.
Proof. intros H. apply bind_done. now apply next_run. Qed.

Lemma bind_prev hd :
  hd <> mem_begin s ->
  bind (prev hd) k c s = k (hd - size (heap s (hd - sizeof_tag))) c s.
Proof. intros H. apply bind_done. now apply prev_run. Qed.

Lemma bind_ret {A} (a : A) (k' : A -> M B) : bind (ret a) k' c s = k' a c s.
Proof. reflexivity. Qed.
End Steps.

Lemma put_heap s a t x :
  heap (put s a t) x = if x =? a then t else heap s x.
Proof. reflexivity. Qed.

Lemma put_begin s a t : mem_begin (put s a t) = mem_begin s.
Proof. reflexivity. Qed.

Lemma put_end s a t : mem_end (put s a t) = mem_end s.
Proof. reflexivity. Qed.

(** Resolve a lookup in an updated memory when [lia] can compare the
    addresses. *)
Ltac heap_lookup :=
  repeat match goal with
  | |- context [?x =? ?y] =>
      first [ replace (x =? y) with true by (symmetry; apply Z.eqb_eq; lia)
            | replace (x =? y) with false by (symmetry; apply Z.eqb_neq; lia) ]
  end.

Ltac exec_step :=
  first
    [ rewrite bind_load
    | rewrite bind_store
    | rewrite bind_copy
    | rewrite bind_store_busy
    | rewrite bind_store_size
    | rewrite bind_get_begin
    | rewrite bind_get_end
    | rewrite bind_ret
    | rewrite bind_tail by (rewrite ?put_end; lia)
    | rewrite bind_next by (rewrite ?put_end; lia)
    | rewrite bind_prev by (rewrite ?put_begin; lia)
    | rewrite user_mem_run by (rewrite ?put_end; lia) ];
  rewrite ?put_heap, ?put_begin, ?put_end.

Ltac exec :=
  repeat (exec_step; unfold sizeof_tag; heap_lookup; cbn [size busy]).
Lemma mod8_add a b : a mod 8 = 0 -> b mod 8 = 0 -> (a + b) mod 8 = 0.
Proof. intros Ha Hb. rewrite Z.add_mod, Ha, Hb by lia. reflexivity. Qed.

Lemma mod8_sub a b : a mod 8 = 0 -> b mod 8 = 0 -> (a - b) mod 8 = 0.
Proof. intros Ha Hb. rewrite Zminus_mod, Ha, Hb. reflexivity. Qed.

Lemma blocks_put_before s a v l x e :
  a < x -> blocks (heap s) x e l -> blocks (heap (put s a v)) x e l.
Proof. intros H. apply blocks_upd_outside. lia. Qed.

Lemma myalloc_loop_split_blocks c fuel s bs block t l2 :
  blocks (heap s) block (mem_end s) (t :: l2) ->
  busy t = false ->
  2 * sizeof_tag <= bs -> bs mod 8 = 0 ->
  bs + 4 * sizeof_tag < size t -> size t < 2 ^ 63 ->
  exists s',
    myalloc_loop (S fuel) bs block c s =
      Done (block + (size t - bs) + sizeof_tag) s' /\
    mem_begin s' = mem_begin s /\ mem_end s' = mem_end s /\
    blocks (heap s') block (mem_end s)
      (mkTag (size t - bs) false :: mkTag bs true :: l2) /\
    (forall x, x < block -> heap s' x = heap s x).
Proof.
  intros (H1 & H2 & Hok & Hb) Hfree Hbs Hmod Hbig H63.
  pose proof (blocks_le _ _ _ _ Hb) as Hle.
  destruct Hok as [_ Hm].
  unfold sizeof_tag in *.
  eexists. split.
  { cbn [myalloc_loop]. unfold sizeof_tag.
    exec_step. heap_lookup. exec_step.
    rewrite H1, Hfree. cbn [negb].
    rewrite wrap64_small by lia.
    destruct (Z.leb_spec bs (size t)); [|lia].
    destruct (Z.leb_spec (size t) (bs + 8 * 4)); [lia|].
    destruct (Z.ltb_spec bs (size t)); [|lia].
    cbn [andb].
    rewrite wrap64_small by lia. cbv zeta.
    exec_step. rewrite H1, Hfree. rewrite (wrap63_small (size t - bs)) by lia.
    rewrite (wrap63_small bs) by lia.
    exec. reflexivity. }
  split; [reflexivity|]. split; [reflexivity|]. split.
  - cbn [blocks size]. unfold block_ok, sizeof_tag. cbn [size].
    rewrite !put_heap. heap_lookup.
    repeat split; try lia; auto using mod8_sub.
    replace (block + (size t - bs) + bs) with (block + size t) by lia.
    repeat apply blocks_put_before; try lia. exact Hb.
  - intros x Hx. rewrite !put_heap. heap_lookup. reflexivity.
Qed.

Lemma myalloc_loop_whole_blocks c fuel s bs block t l2 :
  blocks (heap s) block (mem_end s) (t :: l2) ->
  busy t = false ->
  0 <= bs ->
  bs <= size t <= bs + 4 * sizeof_tag -> size t < 2 ^ 63 ->
  exists s',
    myalloc_loop (S fuel) bs block c s = Done (block + sizeof_tag) s' /\
    mem_begin s' = mem_begin s /\ mem_end s' = mem_end s /\
    blocks (heap s') block (mem_end s) (mkTag (size t) true :: l2) /\
    (forall x, x < block -> heap s' x = heap s x).
Proof.
  intros (H1 & H2 & Hok & Hb) Hfree Hbs Hfit H63.
  pose proof (blocks_le _ _ _ _ Hb) as Hle.
  pose proof Hok as [H16 Hm].
  unfold sizeof_tag in *.
  eexists. split.
  { cbn [myalloc_loop]. unfold sizeof_tag.
    exec_step. heap_lookup. exec_step.
    rewrite H1, Hfree. cbn [negb].
    rewrite wrap64_small by lia.
    destruct (Z.leb_spec bs (size t)); [|lia].
    destruct (Z.leb_spec (size t) (bs + 8 * 4)); [|lia].
    cbn [andb].
    exec_step. rewrite H1. unfold sizeof_tag.
    exec_step. rewrite H1. exec_step. heap_lookup. rewrite H2.
    exec. reflexivity. }
  split; [reflexivity|]. split; [reflexivity|]. split.
  - cbn [blocks size]. unfold block_ok, sizeof_tag. cbn [size].
    rewrite !put_heap. heap_lookup.
    repeat split; try lia; auto.
    repeat apply blocks_put_before; try lia. exact Hb.
  - intros x Hx. rewrite !put_heap. heap_lookup. reflexivity.
Qed.

(** ** [myalloc] on a partitioned arena *)

Lemma myalloc_run fuel sz c s :
  sz <> 0 ->
  myalloc fuel sz c s = myalloc_loop fuel (block_size sz) (mem_begin s) c s.
Proof.
  intros H. unfold myalloc. now destruct (Z.eqb_spec sz 0).
Qed.

Lemma arena_size_bound s l1 t l2 :
  arena s (l1 ++ t :: l2) -> arena_ok s -> size t < 2 ^ 63.
Proof.
  intros Ha [_ Hok]. apply blocks_sizes in Ha.
  rewrite Forall_forall in Ha.
  specialize (Ha t ltac:(apply in_or_app; right; now left)). lia.
Qed.

Lemma fuel_split (n fuel : nat) :
  (n < fuel)%nat -> exists f, fuel = (n + S f)%nat.
Proof. intros H. exists (fuel - n - 1)%nat. lia. Qed.

(** The scan reaches the block [t] behind the blocks [l1] it passes over. *)
Lemma myalloc_reach c fuel s l1 t l2 sz :
  arena s (l1 ++ t :: l2) ->
  sz <> 0 ->
  Forall (skipped (block_size sz)) l1 ->
  myalloc (length l1 + fuel) sz c s =
  myalloc_loop fuel (block_size sz) (mem_begin s + total l1) c s.
Proof.
  intros Ha Hsz Hsk. rewrite myalloc_run by exact Hsz.
  apply blocks_app in Ha. destruct Ha as [Hp Hq].
  apply myalloc_loop_skips; auto.
  apply blocks_le in Hq. exact Hq.
Qed.

(** Writes at or behind [block] keep the blocks in front of it. *)
Lemma arena_rebuild s s' l1 l' :
  blocks (heap s) (mem_begin s) (mem_begin s + total l1) l1 ->
  mem_begin s' = mem_begin s -> mem_end s' = mem_end s ->
  blocks (heap s') (mem_begin s + total l1) (mem_end s) l' ->
  (forall x, x < mem_begin s + total l1 -> heap s' x = heap s x) ->
  arena s' (l1 ++ l').
Proof.
  intros Hp Hb He Hq Hx. unfold arena. rewrite Hb, He.
  apply blocks_app. split; [|exact Hq].
  revert Hp. apply blocks_ext. intros x Hr. apply Hx. lia.
Qed.

Lemma myalloc_split_core c fuel s l1 t l2 sz :
  arena s (l1 ++ t :: l2) -> arena_ok s ->
  sz <> 0 ->
  2 * sizeof_tag <= block_size sz -> block_size sz mod 8 = 0 ->
  Forall (skipped (block_size sz)) l1 ->
  busy t = false ->
  block_size sz + 4 * sizeof_tag < size t ->
  (length l1 < fuel)%nat ->
  exists s',
    myalloc fuel sz c s =
      Done (mem_begin s + total l1 + (size t - block_size sz) + sizeof_tag) s' /\
    mem_begin s' = mem_begin s /\ mem_end s' = mem_end s /\
    arena s' (l1 ++ mkTag (size t - block_size sz) false
                 :: mkTag (block_size sz) true :: l2).
Proof.
  intros Ha Hok Hsz H16 Hmod Hsk Hfree Hbig Hfuel.
  pose proof (arena_size_bound _ _ _ _ Ha Hok) as H63.
  destruct (fuel_split _ _ Hfuel) as [f ->].
  rewrite (myalloc_reach c _ s l1 t l2 sz Ha Hsz Hsk).
  apply blocks_app in Ha. destruct Ha as [Hp Hq].
  destruct (myalloc_loop_split_blocks c f s (block_size sz) _ t l2
              Hq Hfree H16 Hmod Hbig H63) as (s' & Hrun & Hb & He & Hbl & Hx).
  exists s'. repeat split; auto.
  eapply arena_rebuild; eauto.
Qed.

Lemma myalloc_whole_core c fuel s l1 t l2 sz :
  arena s (l1 ++ t :: l2) -> arena_ok s ->
  sz <> 0 ->
  0 <= block_size sz ->
  Forall (skipped (block_size sz)) l1 ->
  busy t = false ->
  block_size sz <= size t <= block_size sz + 4 * sizeof_tag ->
  (length l1 < fuel)%nat ->
  exists s',
    myalloc fuel sz c s = Done (mem_begin s + total l1 + sizeof_tag) s' /\
    mem_begin s' = mem_begin s /\ mem_end s' = mem_end s /\
    arena s' (l1 ++ mkTag (size t) true :: l2).
Proof.
  intros Ha Hok Hsz H0 Hsk Hfree Hfit Hfuel.
  pose proof (arena_size_bound _ _ _ _ Ha Hok) as H63.
  destruct (fuel_split _ _ Hfuel) as [f ->].
  rewrite (myalloc_reach c _ s l1 t l2 sz Ha Hsz Hsk).
  apply blocks_app in Ha. destruct Ha as [Hp Hq].
  destruct (myalloc_loop_whole_blocks c f s (block_size sz) _ t l2
              Hq Hfree H0 Hfit H63) as (s' & Hrun & Hb & He & Hbl & Hx).
  exists s'. repeat split; auto.
  eapply arena_rebuild; eauto.
Qed.

(** When the scan passes over every block it returns [nullptr] and has
    written nothing. *)
Lemma myalloc_out_of_memory c fuel s l sz :
  arena s l ->
  Forall (skipped (block_size sz)) l ->
  (length l < fuel)%nat ->
  myalloc fuel sz c s = Done nullptr s.
Proof.
  intros Ha Hsk Hfuel.
  destruct (Z.eq_dec sz 0) as [->|Hsz]; [reflexivity|].
  rewrite myalloc_run by exact Hsz.
  destruct (fuel_split _ _ Hfuel) as [f ->].
  rewrite (myalloc_loop_skips c s _ l (S f) _ (mem_end s)); auto; [|lia].
  cbn [myalloc_loop]. rewrite bind_get_end.
  now rewrite Z.eqb_refl.
Qed.

Lemma block_size_facts sz :
  0 < sz -> sz + 23 < 2 ^ 64 ->
  block_size sz = roundUp8 (sz + 2 * sizeof_tag) /\
  2 * sizeof_tag <= block_size sz /\ block_size sz mod 8 = 0.
Proof.
  intros H0 H1. rewrite block_size_roundUp8 by lia.
  pose proof (roundUp8_bounds (sz + 2 * sizeof_tag)).
  pose proof (roundUp8_mod (sz + 2 * sizeof_tag)).
  unfold sizeof_tag in *. repeat split; try lia.
Qed.

(** ** The two unions of [myfree] *)

Lemma coalesce_left_snoc l1 q u :
  coalesce_left (l1 ++ [q]) u =
  if busy q then (l1 ++ [q], u)
  else (l1, mkTag (size q + size u) (busy q)).
Proof.
  induction l1 as [|a l1 IH].
  - reflexivity.
  - change ((a :: l1) ++ [q]) with (a :: (l1 ++ [q])).
    cbn [coalesce_left]. rewrite IH.
    destruct (l1 ++ [q]) eqn:E.
    + now destruct l1.
    + now destruct (busy q).
Qed.

(** Two adjacent blocks read as one once the tag [w] of their joint size is
    written at the header of the first and at the footer of the second. *)
Lemma blocks_fuse h a e u v w l :
  blocks h a e (u :: v :: l) ->
  size w = size u + size v ->
  blocks (upd (upd h a w) (a + size w - sizeof_tag) w) a e (w :: l).
Proof.
  intros (H1 & H2 & [Hu Hum] & H3 & H4 & [Hv Hvm] & Hb) Hw.
  pose proof (blocks_le _ _ _ _ Hb) as Hle.
  unfold sizeof_tag in *. cbn [blocks]. unfold block_ok, sizeof_tag.
  rewrite Hw. unfold upd at 1 2 3. heap_lookup.
  repeat split; try lia; auto using mod8_add.
  replace (a + (size u + size v)) with (a + size u + size v) by lia.
  repeat apply blocks_upd_outside; try lia. exact Hb.
Qed.

(** The same block with another busy flag, written at both ends. *)
Lemma blocks_retag h a e t w l :
  blocks h a e (t :: l) ->
  size w = size t ->
  blocks (upd (upd h a w) (a + size w - sizeof_tag) w) a e (w :: l).
Proof.
  intros (H1 & H2 & [Hu Hum] & Hb) Hw.
  pose proof (blocks_le _ _ _ _ Hb) as Hle.
  unfold sizeof_tag in *. cbn [blocks]. unfold block_ok, sizeof_tag.
  rewrite Hw. unfold upd at 1 2 3. heap_lookup.
  repeat split; try lia; auto.
  repeat apply blocks_upd_outside; try lia. exact Hb.
Qed.

Lemma absorb_run c s x y :
  x <> mem_end s -> x <> y ->
  0 <= size (heap s x) + size (heap s y) < 2 ^ 63 ->
  let w := mkTag (size (heap s x) + size (heap s y)) (busy (heap s x)) in
  absorb x y c s = Done tt (put (put s x w) (x + size w - sizeof_tag) w).
Proof.
  intros Hx Hxy Hsz w. unfold absorb.
  exec. rewrite wrap64_small, wrap63_small by lia. exec.
  rewrite copy_run. rewrite !put_heap. heap_lookup. reflexivity.
Qed.

Lemma union_next_blocks c s a u l2 :
  blocks (heap s) a (mem_end s) (u :: l2) ->
  mem_end s - a < 2 ^ 63 ->
  exists s',
    union_next a c s = Done tt s' /\
    mem_begin s' = mem_begin s /\ mem_end s' = mem_end s /\
    blocks (heap s') a (mem_end s) (coalesce_right u l2) /\
    (forall x, x < a -> heap s' x = heap s x).
Proof.
  intros Hb H63.
  pose proof Hb as (H1 & H2 & [Hu Hum] & Hb').
  pose proof (blocks_le _ _ _ _ Hb') as Hle.
  unfold sizeof_tag in *. unfold union_next.
  rewrite bind_next by lia. rewrite bind_get_end. rewrite H1.
  destruct l2 as [|n l2'].
  - cbn [blocks] in Hb'. rewrite Hb', Z.eqb_refl. cbn [negb].
    exists s. repeat split; auto.
  - pose proof Hb' as (H3 & H4 & [Hn Hnm] & Hb'').
    pose proof (blocks_le _ _ _ _ Hb'') as Hle'.
    unfold sizeof_tag in *.
    destruct (Z.eqb_spec (a + size u) (mem_end s)) as [E|_]; [lia|].
    cbn [negb]. rewrite bind_load, H3. cbn [coalesce_right].
    destruct (busy n) eqn:Hbn; cbn [negb].
    + exists s. repeat split; auto.
    + rewrite absorb_run by (rewrite ?H1, ?H3; lia).
      rewrite H1, H3. cbn [size].
      eexists. split; [reflexivity|].
      split; [reflexivity|]. split; [reflexivity|]. split.
      * apply (blocks_fuse _ _ _ u n); auto.
      * intros x Hx. rewrite !put_heap. unfold sizeof_tag. heap_lookup.
        reflexivity.
Qed.

Lemma union_prev_blocks c s l1 u l2 :
  arena s (l1 ++ u :: l2) -> arena_ok s ->
  exists s',
    union_prev (mem_begin s + total l1) c s =
      Done (mem_begin s + total (fst (coalesce_left l1 u))) s' /\
    mem_begin s' = mem_begin s /\ mem_end s' = mem_end s /\
    arena s' (fst (coalesce_left l1 u) ++ snd (coalesce_left l1 u) :: l2).
Proof.
  intros Ha [_ H63]. unfold union_prev. rewrite bind_get_begin.
  destruct l1 as [|q0 l0] using rev_ind.
  - cbn [total coalesce_left fst snd app]. rewrite Z.add_0_r, Z.eqb_refl.
    cbn [negb]. exists s.
    split; [reflexivity|]. split; [reflexivity|]. split; [reflexivity|].
    exact Ha.
  - clear IHl0. rename l0 into l1, q0 into q.
    rewrite coalesce_left_snoc.
    rewrite <- app_assoc in Ha. cbn [app] in Ha.
    pose proof Ha as Ha'. apply blocks_app in Ha'. destruct Ha' as [Hp Hq].
    pose proof Hq as (H1 & H2 & [Hs Hsm] & H3 & H4 & [Hu Hum] & Hb).
    pose proof (blocks_le _ _ _ _ Hb) as Hle.
    pose proof (blocks_total_nonneg _ _ _ _ Hp) as Hnn.
    rewrite total_app. cbn [total]. unfold sizeof_tag in *.
    destruct (Z.eqb_spec (mem_begin s + (total l1 + (size q + 0)))
                (mem_begin s)) as [E|_]; [lia|].
    cbn [negb]. rewrite bind_prev by lia. unfold sizeof_tag.
    replace (mem_begin s + (total l1 + (size q + 0)) - 8)
      with (mem_begin s + total l1 + size q - 8) by lia.
    rewrite H2. rewrite bind_load.
    replace (mem_begin s + (total l1 + (size q + 0)) - size q)
      with (mem_begin s + total l1) by lia.
    rewrite H1.
    destruct (busy q) eqn:Hbq; cbn [negb fst snd].
    + rewrite total_app. cbn [total]. exists s.
      split; [reflexivity|]. split; [reflexivity|]. split; [reflexivity|].
      rewrite <- app_assoc. exact Ha.
    + replace (mem_begin s + (total l1 + (size q + 0)))
        with (mem_begin s + total l1 + size q) by lia.
      rewrite (bind_done _ _ _ _ _ _
                 (absorb_run c s (mem_begin s + total l1)
                    (mem_begin s + total l1 + size q) ltac:(lia) ltac:(lia)
                    ltac:(rewrite H1, H3; lia))).
      unfold ret. rewrite H1, H3, Hbq. cbn [size].
      eexists. split; [reflexivity|].
      split; [reflexivity|]. split; [reflexivity|].
      unfold arena. cbn [put heap mem_begin mem_end]. apply blocks_app.
      split.
      * repeat apply blocks_upd_outside; try (unfold sizeof_tag; lia).
        exact Hp.
      * cbn [put heap mem_begin mem_end].
        apply (blocks_fuse _ _ _ q u); auto. 
Qed.

(** ** [myfree] on a partitioned arena *)

Lemma arena_ok_same s s' :
  mem_begin s' = mem_begin s -> mem_end s' = mem_end s ->
  arena_ok s -> arena_ok s'.
Proof. unfold arena_ok. intros -> ->. tauto. Qed.

(** Releasing the busy block [t]: the flag is cleared at both ends, then
    the block is united with a free left and a free right neighbour. *)
Lemma myfree_blocks c s l1 t l2 p :
  arena s (l1 ++ t :: l2) -> arena_ok s ->
  busy t = true ->
  payload_at s l1 p ->
  exists s',
    myfree p c s = Done tt s' /\
    mem_begin s' = mem_begin s /\ mem_end s' = mem_end s /\
    arena s' (freed l1 t l2).
Proof.
  intros Ha Hok Hbusy Hp. unfold payload_at in Hp.
  pose proof Hok as [Hpos H63].
  pose proof Ha as Ha'. apply blocks_app in Ha'. destruct Ha' as [Hpre Hq].
  pose proof Hq as (H1 & H2 & [Hs Hsm] & Hb).
  pose proof (blocks_le _ _ _ _ Hb) as Hle.
  pose proof (blocks_total_nonneg _ _ _ _ Hpre) as Hnn.
  unfold sizeof_tag in *.
  set (block := mem_begin s + total l1) in *.
  set (tf := mkTag (size t) false).
  set (s2 := put (put s block tf) (block + size t - 8) tf).
  assert (Ha2 : arena s2 (l1 ++ tf :: l2)).
  { unfold arena, s2. cbn [put heap mem_begin mem_end].
    apply blocks_app. fold block. split.
    - repeat apply blocks_upd_outside; try lia. exact Hpre.
    - apply (blocks_retag _ _ _ t tf); auto. }
  assert (Hok2 : arena_ok s2) by exact Hok.
  destruct (union_prev_blocks c s2 l1 tf l2 Ha2 Hok2)
    as (s3 & Hrun3 & Hb3 & He3 & Ha3).
  change (mem_begin s2) with (mem_begin s) in *.
  change (mem_end s2) with (mem_end s) in *.
  fold block in Hrun3.
  unfold freed. fold tf.
  destruct (coalesce_left l1 tf) as [l1' u] eqn:Hcl. cbn [fst snd] in *.
  pose proof Ha3 as Ha3'. unfold arena in Ha3'. rewrite Hb3, He3 in Ha3'.
  apply blocks_app in Ha3'. destruct Ha3' as [Hpre3 Hq3].
  pose proof (blocks_total_nonneg _ _ _ _ Hpre3) as Hnn3.
  rewrite <- He3 in Hq3.
  destruct (union_next_blocks c s3 _ u l2 Hq3 ltac:(rewrite He3; lia))
    as (s4 & Hrun4 & Hb4 & He4 & Ha4 & Hx4).
  exists s4. split.
  - unfold myfree, nullptr, from_user_mem, sizeof_tag.
    destruct (Z.eqb_spec p 0) as [E|_]; [lia|].
    rewrite bind_get_begin, bind_get_end.
    rewrite bind_assert.
    2:{ apply andb_true_iff. split; [apply Z.leb_le | apply Z.ltb_lt]; lia. }
    destruct (Z.ltb_spec p (mem_begin s)); [lia|].
    destruct (Z.leb_spec (mem_end s) p); [lia|].
    cbn [orb]. replace (p - 8) with block by lia.
    rewrite bind_load, H1, Hbusy. rewrite bind_assert by reflexivity.
    cbn [negb]. exec. rewrite H1. fold tf.
    rewrite (bind_done _ _ _ _ _ _ Hrun3).
    exact Hrun4.
  - split; [congruence|]. split; [congruence|].
    rewrite He3 in Ha4.
    apply (arena_rebuild s3 s4 l1' (coalesce_right u l2));
      rewrite ?Hb3, ?He3; auto; congruence.
Qed.

(** ** Adjacent free blocks in a list of blocks *)

Lemma adjacent_free_cons w l :
  adjacent_free (w :: l) =
  (negb (busy w) && negb (head_busy l)) || adjacent_free l.
Proof. destruct l; cbn; now rewrite ?andb_false_r. Qed.

Lemma last_busy_snoc l q : last_busy (l ++ [q]) = busy q.
Proof.
  induction l as [|a l IH]; [reflexivity|].
  change ((a :: l) ++ [q]) with (a :: (l ++ [q])). cbn [last_busy].
  rewrite IH. destruct (l ++ [q]) eqn:E; [now destruct l | reflexivity].
Qed.

Lemma adjacent_free_app l1 w l2 :
  adjacent_free (l1 ++ w :: l2) =
  adjacent_free l1 || (negb (last_busy l1) && negb (busy w))
  || adjacent_free (w :: l2).
Proof.
  induction l1 as [|a l1 IH].
  - reflexivity.
  - change ((a :: l1) ++ w :: l2) with (a :: (l1 ++ w :: l2)).
    rewrite (adjacent_free_cons a (l1 ++ w :: l2)), IH.
    rewrite (adjacent_free_cons a l1).
    destruct l1 as [|b l1].
    + cbn. destruct (busy a), (busy w); cbn; reflexivity.
    + cbn [app head_busy last_busy].
      destruct (busy a), (busy b), (adjacent_free (b :: l1)); cbn;
        reflexivity.
Qed.

Lemma adjacent_free_snoc l q :
  adjacent_free (l ++ [q]) =
  adjacent_free l || (negb (last_busy l) && negb (busy q)).
Proof.
  rewrite adjacent_free_app. cbn. now rewrite orb_false_r.
Qed.

(** [myfree] re-establishes the absence of adjacent free blocks. *)
Lemma freed_no_adjacent_free l1 t l2 :
  busy t = true ->
  adjacent_free (l1 ++ t :: l2) = false ->
  adjacent_free (freed l1 t l2) = false.
Proof.
  intros Hb H. rewrite adjacent_free_app, adjacent_free_cons, Hb in H.
  cbn [negb andb] in H. rewrite andb_false_r, orb_false_r in H.
  apply orb_false_iff in H. destruct H as [H1 H2].
  unfold freed.
  assert (Hr : forall u, busy u = false ->
             adjacent_free (coalesce_right u l2) = false /\
             head_busy (coalesce_right u l2) = false).
  { intros u Hu. destruct l2 as [|n l2']; cbn [coalesce_right].
    - cbn. now rewrite Hu.
    - rewrite adjacent_free_cons in H2.
      destruct (busy n) eqn:Hn.
      + rewrite (adjacent_free_cons u), (adjacent_free_cons n).
        cbn [head_busy]. rewrite Hn, Hu.
        cbn in *. now rewrite H2.
      + rewrite adjacent_free_cons. cbn [busy head_busy]. rewrite Hu.
        cbn in H2. apply orb_false_iff in H2. destruct H2 as [H2 H3].
        rewrite H3. destruct (head_busy l2'); cbn in *; [auto|discriminate]. }
  destruct l1 as [|q l1] using rev_ind.
  - cbn [coalesce_left app]. apply Hr. reflexivity.
  - clear IHl1. rewrite coalesce_left_snoc.
    rewrite adjacent_free_snoc in H1.
    apply orb_false_iff in H1. destruct H1 as [H1 H3].
    destruct (busy q) eqn:Hq; cbn [size busy].
    + destruct (Hr (mkTag (size t) false) eq_refl) as [Hr1 Hr2].
      destruct (coalesce_right (mkTag (size t) false) l2) as [|w r] eqn:E.
      { destruct l2 as [|n l2']; cbn in E; [discriminate|].
        destruct (busy n); discriminate. }
      rewrite adjacent_free_app. rewrite Hr1.
      rewrite adjacent_free_snoc, last_busy_snoc, Hq, H1. cbn.
      now rewrite andb_false_r.
    + destruct (Hr (mkTag (size q + size t) false) eq_refl) as [Hr1 Hr2].
      destruct (coalesce_right (mkTag (size q + size t) false) l2)
        as [|w r] eqn:E.
      { destruct l2 as [|n l2']; cbn in E; [discriminate|].
        destruct (busy n); discriminate. }
      rewrite adjacent_free_app, Hr1, H1.
      cbn in H3. destruct (last_busy l1); cbn in *; [reflexivity|discriminate].
Qed.

(** ** Releasing what was just allocated *)

Lemma coalesce_left_busy l1 u :
  last_busy l1 = true -> coalesce_left l1 u = (l1, u).
Proof.
  destruct l1 as [|q l1 _] using rev_ind; [reflexivity|].
  rewrite last_busy_snoc, coalesce_left_snoc. now intros ->.
Qed.

Lemma coalesce_right_busy u l2 :
  head_busy l2 = true -> coalesce_right u l2 = u :: l2.
Proof. destruct l2 as [|n l2]; cbn; [reflexivity | now intros ->]. Qed.

Lemma free_neighbours l1 t l2 :
  busy t = false ->
  adjacent_free (l1 ++ t :: l2) = false ->
  last_busy l1 = true /\ head_busy l2 = true.
Proof.
  intros Hb H. rewrite adjacent_free_app, adjacent_free_cons, Hb in H.
  destruct (last_busy l1), (head_busy l2), (adjacent_free l1);
    cbn in H; auto; discriminate.
Qed.

Lemma tag_eta t b : busy t = b -> mkTag (size t) b = t.
Proof. destruct t; cbn. now intros ->. Qed.

(** A free block taken whole and released is the same block again. *)
Lemma freed_whole l1 t l2 :
  busy t = false ->
  adjacent_free (l1 ++ t :: l2) = false ->
  freed l1 (mkTag (size t) true) l2 = l1 ++ t :: l2.
Proof.
  intros Hb H. destruct (free_neighbours _ _ _ Hb H) as [Hl Hr].
  unfold freed. cbn [size]. rewrite coalesce_left_busy by exact Hl.
  rewrite coalesce_right_busy by exact Hr. now rewrite tag_eta.
Qed.

(** A block split off a free block and released is absorbed by the
    remainder, which is the original block again. *)
Lemma freed_split l1 t l2 bs :
  busy t = false ->
  adjacent_free (l1 ++ t :: l2) = false ->
  freed (l1 ++ [mkTag (size t - bs) false]) (mkTag bs true) l2 =
  l1 ++ t :: l2.
Proof.
  intros Hb H. destruct (free_neighbours _ _ _ Hb H) as [Hl Hr].
  unfold freed. rewrite coalesce_left_snoc. cbn [size busy].
  rewrite coalesce_right_busy by exact Hr.
  replace (size t - bs + bs) with (size t) by lia. now rewrite tag_eta.
Qed.

(** The scan either passes over every block or stops at a first free block
    that is large enough. *)
Lemma scan_cases bs l :
  Forall (skipped bs) l \/
  exists l1 t l2,
    l = l1 ++ t :: l2 /\ Forall (skipped bs) l1 /\
    busy t = false /\ bs <= size t.
Proof.
  induction l as [|a l IH].
  - left. constructor.
  - destruct (busy a) eqn:Ha.
    + destruct IH as [IH | (l1 & t & l2 & -> & Hsk & Hb & Hs)].
      * left. constructor; [now left | exact IH].
      * right. exists (a :: l1), t, l2. repeat split; auto.
        constructor; [now left | exact Hsk].
    + destruct (Z_lt_le_dec (size a) bs) as [Hlt | Hge].
      * destruct IH as [IH | (l1 & t & l2 & -> & Hsk & Hb & Hs)].
        -- left. constructor; [now right | exact IH].
        -- right. exists (a :: l1), t, l2. repeat split; auto.
           constructor; [now right | exact Hsk].
      * right. exists [], a, l. repeat split; auto.
Qed.

Lemma myalloc_cases c fuel s l sz :
  arena s l -> arena_ok s ->
  0 < sz -> sz + 23 < 2 ^ 64 ->
  (length l < fuel)%nat ->
  exists p s' l',
    myalloc fuel sz c s = Done p s' /\
    mem_begin s' = mem_begin s /\ mem_end s' = mem_end s /\
    arena s' l' /\
    alloc_result s l (block_size sz) p s' l'.
Proof.
  intros Ha Hok H0 H1 Hfuel.
  destruct (block_size_facts sz H0 H1) as (_ & H16 & Hmod).
  destruct (scan_cases (block_size sz) l)
    as [Hsk | (l1 & t & l2 & -> & Hsk & Hb & Hs)].
  - exists nullptr, s, l. repeat split; auto.
    + eapply myalloc_out_of_memory; eauto.
    + now constructor.
  - assert (Hf1 : (length l1 < fuel)%nat).
    { rewrite length_app in Hfuel. cbn in Hfuel. lia. }
    destruct (Z_le_gt_dec (size t) (block_size sz + 4 * sizeof_tag))
      as [Hle | Hgt].
    + destruct (myalloc_whole_core c fuel s l1 t l2 sz Ha Hok
                  ltac:(lia) ltac:(unfold sizeof_tag in *; lia) Hsk Hb
                  ltac:(lia) Hf1) as (s' & Hrun & Hb' & He' & Ha').
      exists (mem_begin s + total l1 + sizeof_tag), s',
        (l1 ++ mkTag (size t) true :: l2).
      repeat split; auto. eapply alloc_whole; eauto; lia.
    + destruct (myalloc_split_core c fuel s l1 t l2 sz Ha Hok
                  ltac:(lia) H16 Hmod Hsk Hb ltac:(lia) Hf1)
        as (s' & Hrun & Hb' & He' & Ha').
      eexists _, s', _. repeat split; eauto.
      eapply alloc_split; eauto; lia.
Qed.

Lemma alloc_free_round_trip c fuel s l sz p s1 :
  arena s l -> arena_ok s ->
  adjacent_free l = false ->
  0 < sz -> sz + 23 < 2 ^ 64 ->
  (length l < fuel)%nat ->
  myalloc fuel sz c s = Done p s1 ->
  p <> nullptr ->
  exists s2,
    myfree p c s1 = Done tt s2 /\
    mem_begin s2 = mem_begin s /\ mem_end s2 = mem_end s /\
    arena s2 l.
Proof.
  intros Ha Hok Hnaf H0 H1 Hfuel Hrun Hp.
  destruct (myalloc_cases c fuel s l sz Ha Hok H0 H1 Hfuel)
    as (p' & s' & l' & Hrun' & Hb & He & Ha' & Hres).
  rewrite Hrun in Hrun'. injection Hrun' as <- <-. clear Hrun.
  pose proof (arena_ok_same s s1 Hb He Hok) as Hok1.
  destruct Hres as [Hsk | l1 t l2 sa -> Hsk Hfree Hfit
                        | l1 t l2 sa -> Hsk Hfree Hbig].
  - contradiction.
  - destruct (myfree_blocks c sa l1 (mkTag (size t) true) l2 _ Ha' Hok1
                eq_refl ltac:(unfold payload_at; now rewrite Hb))
      as (s2 & Hrun2 & Hb2 & He2 & Ha2).
    exists s2. rewrite freed_whole in Ha2 by assumption.
    repeat split; auto; congruence.
  - change (l1 ++ mkTag (size t - block_size sz) false
               :: mkTag (block_size sz) true :: l2)
      with (l1 ++ [mkTag (size t - block_size sz) false]
               ++ mkTag (block_size sz) true :: l2) in Ha'.
    rewrite app_assoc in Ha'.
    destruct (myfree_blocks c sa _ (mkTag (block_size sz) true) l2
                (mem_begin s + total l1 + (size t - block_size sz)
                 + sizeof_tag) Ha' Hok1 eq_refl)
      as (s2 & Hrun2 & Hb2 & He2 & Ha2).
    { unfold payload_at. rewrite Hb, total_app. cbn [total size]. lia. }
    exists s2. rewrite freed_split in Ha2 by assumption.
    repeat split; auto; congruence.
Qed.

(** ** What the walk determines *)

Lemma blocks_unique h l : forall l' a e,
  blocks h a e l -> blocks h a e l' -> l = l'.
Proof.
  induction l as [|t l IH]; intros [|t' l'] a e H H'.
  - reflexivity.
  - cbn in H. subst e. destruct H' as (_ & _ & [Hs _] & H').
    apply blocks_le in H'. unfold sizeof_tag in *. lia.
  - cbn in H'. subst e. destruct H as (_ & _ & [Hs _] & H).
    apply blocks_le in H. unfold sizeof_tag in *. lia.
  - destruct H as (H1 & _ & _ & H). destruct H' as (H1' & _ & _ & H').
    assert (E : t' = t) by congruence. rewrite E in *.
    f_equal. eapply IH; eauto.
Qed.

Lemma walk_blocks c s l : forall a fuel,
  blocks (heap s) a (mem_end s) l ->
  (length l < fuel)%nat ->
  walk fuel a c s = Done (headers a l) s.
Proof.
  induction l as [|t l IH]; intros a fuel Hb Hfuel;
    (destruct fuel as [|fuel]; [cbn in Hfuel; lia|]); cbn [walk headers].
  - cbn in Hb. subst a. rewrite bind_get_end, Z.eqb_refl. reflexivity.
  - destruct Hb as (H1 & _ & [Hs _] & Hb).
    pose proof (blocks_le _ _ _ _ Hb) as Hle. unfold sizeof_tag in *.
    rewrite bind_get_end.
    destruct (Z.eqb_spec a (mem_end s)) as [E|_]; [lia|].
    rewrite bind_load, bind_next by lia. rewrite H1.
    rewrite (bind_done _ _ _ _ _ _ (IH _ fuel Hb ltac:(cbn in Hfuel; lia))).
    reflexivity.
Qed.

(** ** Arguments [myfree] ignores *)

Lemma myfree_ignores_relaxed s p :
  p = nullptr \/ p < mem_begin s \/ mem_end s <= p \/
  busy (heap s (from_user_mem p)) = false ->
  myfree p Relaxed s = Done tt s.
Proof.
  intros H. unfold myfree.
  destruct (Z.eqb_spec p nullptr) as [E|Hn]; [reflexivity|].
  rewrite bind_get_begin, bind_get_end, bind_assert_relaxed.
  destruct (Z.ltb_spec p (mem_begin s)); [reflexivity|].
  destruct (Z.leb_spec (mem_end s) p); [reflexivity|].
  cbn [orb]. rewrite bind_load, bind_assert_relaxed.
  destruct H as [H | [H | [H | H]]]; try lia.
  now rewrite H.
Qed.

Lemma myfree_null c s : myfree nullptr c s = Done tt s.
Proof. reflexivity. Qed.

Lemma myfree_rejects_strict s p :
  p <> nullptr ->
  p < mem_begin s \/ mem_end s <= p \/
  busy (heap s (from_user_mem p)) = false ->
  myfree p Strict s = Abort.
Proof.
  intros Hn H. unfold myfree.
  destruct (Z.eqb_spec p nullptr) as [E|_]; [contradiction|].
  rewrite bind_get_begin, bind_get_end.
  unfold bind at 1. unfold assert_.
  destruct (Z.leb_spec (mem_begin s) p); cbn [andb]; [|reflexivity].
  destruct (Z.ltb_spec p (mem_end s)); [|reflexivity].
  destruct (Z.ltb_spec p (mem_begin s)); [lia|].
  destruct (Z.leb_spec (mem_end s) p); [lia|].
  cbn [orb]. rewrite bind_load. unfold bind at 1.
  destruct H as [H | [H | H]]; try lia.
  now rewrite H.
Qed.

(** ** Every call of [myfree] with an argument it may be given *)

Lemma payload_header s l1 t l2 p :
  arena s (l1 ++ t :: l2) -> payload_at s l1 p ->
  heap s (from_user_mem p) = t.
Proof.
  intros Ha Hp. apply blocks_app in Ha. destruct Ha as [_ (H1 & _)].
  unfold payload_at in Hp. unfold from_user_mem. subst p.
  replace (mem_begin s + total l1 + sizeof_tag - sizeof_tag)
    with (mem_begin s + total l1) by lia.
  exact H1.
Qed.

Lemma myfree_cases c s l p :
  arena s l -> arena_ok s -> free_arg_ok s l p ->
  (exists s' l',
     myfree p c s = Done tt s' /\
     mem_begin s' = mem_begin s /\ mem_end s' = mem_end s /\
     arena s' l' /\ free_result l l')
  \/ (c = Strict /\ myfree p c s = Abort /\
      (p < mem_begin s \/ mem_end s <= p \/
       busy (heap s (from_user_mem p)) = false)).
Proof.
  intros Ha Hok Harg.
  destruct (Z.eq_dec p nullptr) as [->|Hn].
  { left. exists s, l. repeat split; auto. constructor. }
  assert (Hbad : p < mem_begin s \/ mem_end s <= p \/
                 busy (heap s (from_user_mem p)) = false ->
                 (exists s' l',
                    myfree p c s = Done tt s' /\
                    mem_begin s' = mem_begin s /\ mem_end s' = mem_end s /\
                    arena s' l' /\ free_result l l')
                 \/ (c = Strict /\ myfree p c s = Abort /\
                     (p < mem_begin s \/ mem_end s <= p \/
                      busy (heap s (from_user_mem p)) = false))).
  { intros H. destruct c.
    - right. split; [reflexivity|]. split; [|exact H].
      now apply myfree_rejects_strict.
    - left. exists s, l. split; [apply myfree_ignores_relaxed; tauto|].
      repeat split; auto. constructor. }
  destruct Harg as [H | [H | [H | (l1 & t & l2 & -> & Hp)]]].
  - contradiction.
  - apply Hbad. tauto.
  - apply Hbad. tauto.
  - destruct (busy t) eqn:Hbt.
    + left.
      destruct (myfree_blocks c s l1 t l2 p Ha Hok Hbt Hp)
        as (s' & Hrun & Hb & He & Ha').
      exists s', (freed l1 t l2). repeat split; auto.
      now apply free_released.
    + apply Hbad. right. right.
      now rewrite (payload_header s l1 t l2 p Ha Hp).
Qed.

(** ** Running [mysetup] *)

Lemma tail_run_or c s hd :
  c = Relaxed \/ hd <> mem_end s ->
  tail hd c s = Done (hd + size (heap s hd) - sizeof_tag) s.
Proof. intros [-> | H]; [reflexivity | now apply tail_run]. Qed.

Lemma next_run_or c s hd :
  c = Relaxed \/ hd <> mem_end s ->
  next hd c s = Done (hd + size (heap s hd)) s.
Proof. intros [-> | H]; [reflexivity | now apply next_run]. Qed.

Lemma mysetup_run c s buf sz :
  c = Relaxed \/ buf <> mem_end s ->
  let t := mkTag (wrap63 sz) false in
  mysetup buf sz c s =
  Done tt (mkState (upd (upd (heap s) buf t) (buf + wrap63 sz - sizeof_tag) t)
             buf (buf + wrap63 sz)).
Proof.
  intros Hc t. unfold mysetup. rewrite bind_store. fold t.
  rewrite (bind_done _ _ _ _ _ _ (tail_run_or c (put s buf t) buf Hc)).
  rewrite bind_copy. rewrite !put_heap, Z.eqb_refl.
  unfold bind at 1. unfold set_begin.
  cbn [put heap mem_begin mem_end size t].
  match goal with
  | |- bind (next buf) _ c ?s2 = _ =>
      rewrite (bind_done _ _ _ _ _ _ (next_run_or c s2 buf Hc))
  end.
  unfold set_end. cbn [heap mem_begin mem_end].
  assert (E : upd (upd (heap s) buf t) (buf + wrap63 sz - sizeof_tag) t buf
              = t).
  { unfold upd. rewrite Z.eqb_refl.
    now destruct (buf =? buf + wrap63 sz - sizeof_tag). }
  rewrite E. reflexivity.
Qed.

Lemma mysetup_abort s buf sz :
  buf = mem_end s -> mysetup buf sz Strict s = Abort.
Proof.
  intros ->. unfold mysetup, bind, store, tail, bind, get_end, assert_.
  cbn [mem_end]. now rewrite Z.eqb_refl.
Qed.

Lemma mysetup_done c s buf sz s1 :
  mysetup buf sz c s = Done tt s1 ->
  let t := mkTag (wrap63 sz) false in
  s1 = mkState (upd (upd (heap s) buf t) (buf + wrap63 sz - sizeof_tag) t)
         buf (buf + wrap63 sz).
Proof.
  intros H t.
  assert (Hc : c = Relaxed \/ buf <> mem_end s).
  { destruct c; [|now left]. right. intros E.
    rewrite (mysetup_abort s buf sz E) in H. discriminate. }
  rewrite (mysetup_run c s buf sz Hc) in H. now injection H as <-.
Qed.

(** After [mysetup] over a buffer of an admissible length the arena is one
    free block spanning that buffer. *)
Lemma mysetup_arena c s buf sz s1 :
  mysetup buf sz c s = Done tt s1 ->
  0 < buf ->
  2 * sizeof_tag <= sz < 2 ^ 63 -> sz mod 8 = 0 ->
  mem_begin s1 = buf /\ mem_end s1 = buf + sz /\
  arena s1 [mkTag sz false] /\ arena_ok s1.
Proof.
  intros H Hbuf Hsz Hmod. apply mysetup_done in H. subst s1.
  unfold sizeof_tag in *. rewrite wrap63_small by lia.
  unfold arena, arena_ok, block_ok, sizeof_tag. cbn.
  rewrite upd_same. unfold upd. rewrite Z.eqb_refl.
  destruct (Z.eqb_spec buf (buf + sz - 8)); repeat split; auto;
    unfold sizeof_tag; cbn [size]; lia.
Qed.

(** ** Releasing a list of payload positions *)

Lemma locate_sound l : forall off l1 t l2,
  locate l off = Some (l1, t, l2) ->
  l = l1 ++ t :: l2 /\ off = total l1 + sizeof_tag.
Proof.
  induction l as [|a l IH]; intros off l1 t l2 H; [discriminate|].
  cbn [locate] in H. destruct (Z.eqb_spec off sizeof_tag) as [E|_].
  - injection H as <- <- <-. now split.
  - destruct (locate l (off - size a)) as [[[l1' u] l2']|] eqn:E;
      [|discriminate].
    injection H as <- <- <-. apply IH in E. destruct E as [-> E].
    split; [reflexivity|]. cbn [total]. lia.
Qed.

Lemma free_all_release c : forall offs s l l',
  arena s l -> arena_ok s ->
  release_all l offs = Some l' ->
  exists s',
    free_all (map (Z.add (mem_begin s)) offs) c s = Done tt s' /\
    mem_begin s' = mem_begin s /\ mem_end s' = mem_end s /\
    arena s' l'.
Proof.
  induction offs as [|off offs IH]; intros s l l' Ha Hok H.
  - injection H as <-. exists s. repeat split; auto.
  - cbn [release_all] in H. unfold release in H.
    destruct (locate l off) as [[[l1 t] l2]|] eqn:E; [|discriminate].
    destruct (busy t) eqn:Hb; [|discriminate].
    apply locate_sound in E. destruct E as [-> ->].
    destruct (myfree_blocks c s l1 t l2 (mem_begin s + (total l1 + sizeof_tag))
                Ha Hok Hb ltac:(unfold payload_at; lia))
      as (s1 & Hrun & Hb1 & He1 & Ha1).
    destruct (IH s1 _ _ Ha1 (arena_ok_same _ _ Hb1 He1 Hok) H)
      as (s2 & Hrun2 & Hb2 & He2 & Ha2).
    exists s2. cbn [map free_all].
    rewrite (bind_done _ _ _ _ _ _ Hrun). rewrite <- Hb1.
    repeat split; auto; congruence.
Qed.

(** The six orders of three elements. *)
Lemma Permutation_three {A} (a b c : A) l :
  Permutation l [a; b; c] ->
  l = [a; b; c] \/ l = [a; c; b] \/ l = [b; a; c] \/
  l = [b; c; a] \/ l = [c; a; b] \/ l = [c; b; a].
Proof.
  intros H.
  destruct (Permutation_vs_cons_inv H) as (l1 & l2 & ->).
  apply Permutation_sym, Permutation_cons_app_inv in H.
  apply Permutation_length_2_inv in H.
  destruct l1 as [|x [|y [|z l1]]]; cbn in H;
    destruct H as [H | H]; try discriminate;
    inversion H; subst; cbn; tauto.
Qed.

(** ** Running the scenario *)

Ltac done_eq :=
  match goal with
  | |- Done ?a ?s = Done ?b ?s =>
      replace a with b by (unfold sizeof_tag; lia); reflexivity
  end.

Lemma block_size_16 : block_size 16 = 32.
Proof. reflexivity. Qed.

Lemma block_size_512 : block_size 512 = 528.
Proof. reflexivity. Qed.

Lemma block_size_1024 : block_size 1024 = 1040.
Proof. reflexivity. Qed.

Lemma block_size_12 : block_size 12 = 32.
Proof. reflexivity. Qed.

Lemma scenario_first_alloc c fuel s0 buf s1 :
  mysetup buf 1024 c s0 = Done tt s1 ->
  0 < buf -> (1 < fuel)%nat ->
  exists s2,
    myalloc fuel 16 c s1 = Done (buf + 1000) s2 /\
    mem_begin s2 = buf /\ mem_end s2 = buf + 1024 /\
    arena s2 [mkTag 992 false; mkTag 32 true] /\ arena_ok s2.
Proof.
  intros Hset Hbuf Hfuel.
  destruct (mysetup_arena c s0 buf 1024 s1 Hset Hbuf)
    as (Hb & He & Ha & Hok); [unfold sizeof_tag; lia | reflexivity |].
  destruct (myalloc_split_core c fuel s1 [] (mkTag 1024 false) [] 16 Ha Hok)
    as (s2 & Hrun & Hb2 & He2 & Ha2);
    rewrite ?block_size_16; unfold sizeof_tag; cbn [size busy length];
    try lia; try reflexivity; try constructor.
  rewrite block_size_16 in *. cbn [total size app] in *.
  exists s2. split; [rewrite Hrun, Hb; done_eq|].
  split; [congruence|]. split; [congruence|]. split; [exact Ha2|].
  apply (arena_ok_same s1 s2 Hb2 He2 Hok).
Qed.

Lemma scenario_allocs_run c fuel s0 buf s1 :
  mysetup buf 1024 c s0 = Done tt s1 ->
  0 < buf -> (4 < fuel)%nat ->
  exists s2,
    scenario_allocs fuel c s1 =
      Done (buf + 1000, buf + 472, nullptr, buf + 440) s2 /\
    mem_begin s2 = buf /\ mem_end s2 = buf + 1024 /\
    arena s2 [mkTag 432 false; mkTag 32 true; mkTag 528 true;
              mkTag 32 true] /\
    arena_ok s2.
Proof.
  intros Hset Hbuf Hfuel.
  destruct (scenario_first_alloc c fuel s0 buf s1 Hset Hbuf ltac:(lia))
    as (s2 & Hrun2 & Hb2 & He2 & Ha2 & Hok2).
  destruct (myalloc_split_core c fuel s2 [] (mkTag 992 false)
              [mkTag 32 true] 512 Ha2 Hok2)
    as (s3 & Hrun3 & Hb3 & He3 & Ha3);
    rewrite ?block_size_512; unfold sizeof_tag; cbn [size busy length];
    try lia; try reflexivity; try constructor.
  rewrite block_size_512 in *. cbn [total size app] in *.
  pose proof (arena_ok_same s2 s3 Hb3 He3 Hok2) as Hok3.
  assert (Hrun0 : myalloc fuel 1024 c s3 = Done nullptr s3).
  { apply (myalloc_out_of_memory c fuel s3 _ 1024 Ha3);
      [|cbn [length]; lia].
    rewrite block_size_1024.
    repeat constructor; unfold skipped; cbn [size busy]; auto; right; lia. }
  destruct (myalloc_split_core c fuel s3 [] (mkTag 464 false)
              [mkTag 528 true; mkTag 32 true] 12 Ha3 Hok3)
    as (s4 & Hrun4 & Hb4 & He4 & Ha4);
    rewrite ?block_size_12; unfold sizeof_tag; cbn [size busy length];
    try lia; try reflexivity; try constructor.
  rewrite block_size_12 in *. cbn [total size app] in *.
  exists s4. split.
  - unfold scenario_allocs.
    rewrite (bind_done _ _ _ _ _ _ Hrun2), (bind_done _ _ _ _ _ _ Hrun3),
      (bind_done _ _ _ _ _ _ Hrun0), (bind_done _ _ _ _ _ _ Hrun4).
    unfold ret. rewrite Hb3, Hb2.
    apply (f_equal (fun p => Done p s4)).
    unfold sizeof_tag.
    apply f_equal2; [apply f_equal2; [apply f_equal2|]|];
      try reflexivity; lia.
  - split; [congruence|]. split; [congruence|]. split; [exact Ha4|].
    apply (arena_ok_same s3 s4 Hb4 He4 Hok3).
Qed.

Lemma scenario_release_all order :
  Permutation order [1000; 472; 440] ->
  release_all [mkTag 432 false; mkTag 32 true; mkTag 528 true; mkTag 32 true]
    order = Some [mkTag 1024 false].
Proof.
  intros H. apply Permutation_three in H.
  destruct H as [-> | [-> | [-> | [-> | [-> | ->]]]]]; reflexivity.
Qed.

(** ** [myfree] on a pointer that is in bounds and nothing more *)

Lemma put_keeps_free s a w x :
  busy w = false -> busy (heap s x) = false ->
  busy (heap (put s a w) x) = false.
Proof.
  intros Hw Hx. rewrite put_heap. now destruct (x =? a).
Qed.

(** Without assertions [absorb] always runs, and writes tags that carry the
    busy flag of the absorbing block. *)
Lemma absorb_relaxed s x0 y x :
  busy (heap s x0) = false -> busy (heap s x) = false ->
  exists s',
    absorb x0 y Relaxed s = Done tt s' /\
    busy (heap s' x) = false /\ busy (heap s' x0) = false.
Proof.
  intros H0 Hx. eexists. split; [reflexivity|].
  cbn [put heap mem_begin mem_end].
  assert (E : busy (upd (heap s) x0
                {| size := wrap63 (wrap64 (size (heap s x0) + size (heap s y)));
                   busy := busy (heap s x0) |} x0) = false).
  { now rewrite upd_same. }
  split; unfold upd at 1;
    match goal with |- context [?a =? ?b] => destruct (a =? b) end;
    try exact E.
  unfold upd. now destruct (x =? x0).
Qed.

Lemma prev_run_relaxed s hd :
  prev hd Relaxed s =
  Done (hd - sizeof_tag + sizeof_tag - size (heap s (hd - sizeof_tag))) s.
Proof. reflexivity. Qed.

Lemma union_prev_relaxed s block x :
  busy (heap s block) = false -> busy (heap s x) = false ->
  exists b' s',
    union_prev block Relaxed s = Done b' s' /\
    busy (heap s' x) = false /\ busy (heap s' b') = false.
Proof.
  intros Hb Hx. unfold union_prev. rewrite bind_get_begin.
  destruct (negb (block =? mem_begin s)); [|now exists block, s].
  rewrite (bind_done _ _ _ _ _ _ (prev_run_relaxed s block)).
  rewrite bind_load.
  set (prv := block - sizeof_tag + sizeof_tag
              - size (heap s (block - sizeof_tag))).
  destruct (busy (heap s prv)) eqn:Hp; cbn [negb]; [now exists block, s|].
  destruct (absorb_relaxed s prv block x Hp Hx) as (s' & Hrun & H1 & H2).
  exists prv, s'. rewrite (bind_done _ _ _ _ _ _ Hrun). now split.
Qed.

Lemma union_next_relaxed s block x :
  busy (heap s block) = false -> busy (heap s x) = false ->
  exists s',
    union_next block Relaxed s = Done tt s' /\ busy (heap s' x) = false.
Proof.
  intros Hb Hx. unfold union_next.
  rewrite (bind_done _ _ _ _ _ _
             (next_run_or Relaxed s block (or_introl eq_refl))).
  rewrite bind_get_end.
  destruct (negb (block + size (heap s block) =? mem_end s));
    [|now exists s].
  rewrite bind_load.
  destruct (negb (busy (heap s (block + size (heap s block)))));
    [|now exists s].
  destruct (absorb_relaxed s block (block + size (heap s block)) x Hb Hx)
    as (s' & Hrun & H1 & _).
  now exists s'.
Qed.

(** Any non-null pointer between [mem::begin] and [mem::end] passes the
    check of [myfree]; the tag in front of it is then taken for a header,
    and when it reads as busy it is written. *)
Lemma myfree_in_bounds s p :
  p <> nullptr -> mem_begin s <= p < mem_end s ->
  busy (heap s (from_user_mem p)) = true ->
  exists s',
    myfree p Relaxed s = Done tt s' /\
    busy (heap s' (from_user_mem p)) = false.
Proof.
  intros Hn Hr Hb. unfold myfree.
  destruct (Z.eqb_spec p nullptr) as [E|_]; [contradiction|].
  rewrite bind_get_begin, bind_get_end, bind_assert_relaxed.
  destruct (Z.ltb_spec p (mem_begin s)); [lia|].
  destruct (Z.leb_spec (mem_end s) p); [lia|].
  cbn [orb]. rewrite bind_load, bind_assert_relaxed, Hb. cbn [negb].
  set (hd := from_user_mem p) in *.
  rewrite bind_store_busy.
  rewrite (bind_done _ _ _ _ _ _
             (tail_run_or Relaxed _ hd (or_introl eq_refl))).
  rewrite bind_copy.
  match goal with
  | |- exists s', bind (union_prev hd) _ Relaxed ?s2 = _ /\ _ =>
      assert (H2 : busy (heap s2 hd) = false)
  end.
  { apply put_keeps_free; rewrite put_heap, Z.eqb_refl; reflexivity. }
  match goal with
  | |- exists s', bind (union_prev hd) _ Relaxed ?s2 = _ /\ _ =>
      destruct (union_prev_relaxed s2 hd hd H2 H2)
        as (b' & s3 & Hrun3 & Hx3 & Hb3)
  end.
  destruct (union_next_relaxed s3 b' hd Hb3 Hx3) as (s4 & Hrun4 & Hx4).
  exists s4. rewrite (bind_done _ _ _ _ _ _ Hrun3). now split.
Qed.

(** The first store of such a call: the busy flag of the tag in front of
    [p] is cleared, and the call goes on from there. *)
Lemma myfree_in_bounds_first_store s p :
  p <> nullptr -> mem_begin s <= p < mem_end s ->
  busy (heap s (from_user_mem p)) = true ->
  myfree p Relaxed s =
  (tl <- tail (from_user_mem p) ;;
   copy tl (from_user_mem p) ;;
   block' <- union_prev (from_user_mem p) ;;
   union_next block') Relaxed
    (put s (from_user_mem p)
       (mkTag (size (heap s (from_user_mem p))) false)).
Proof.
  intros Hn Hr Hb. unfold myfree.
  destruct (Z.eqb_spec p nullptr) as [E|_]; [contradiction|].
  rewrite bind_get_begin, bind_get_end, bind_assert_relaxed.
  destruct (Z.ltb_spec p (mem_begin s)); [lia|].
  destruct (Z.leb_spec (mem_end s) p); [lia|].
  cbn [orb]. rewrite bind_load, bind_assert_relaxed, Hb. cbn [negb].
  now rewrite bind_store_busy.
Qed.

(** Every payload position lies at least one tag behind [mem::begin]. *)
Lemma payload_behind_begin s l1 t l2 p :
  arena s (l1 ++ t :: l2) -> payload_at s l1 p ->
  mem_begin s + sizeof_tag <= p.
Proof.
  intros Ha Hp. apply blocks_app in Ha. destruct Ha as [Hpre _].
  apply blocks_total_nonneg in Hpre. unfold payload_at in Hp. lia.
Qed.

(** ** [myfree] on an aligned pointer in a memory of well-formed tags *)

Lemma myfree_passes_bounds_check c s p :
  p <> nullptr -> mem_begin s <= p < mem_end s ->
  myfree p c s = myfree_resolved (from_user_mem p) c s.
Proof.
  intros Hn Hr. unfold myfree, myfree_resolved.
  destruct (Z.eqb_spec p nullptr) as [E|_]; [contradiction|].
  rewrite bind_get_begin, bind_get_end.
  rewrite bind_assert.
  2:{ apply andb_true_iff. split; [apply Z.leb_le | apply Z.ltb_lt]; lia. }
  destruct (Z.ltb_spec p (mem_begin s)); [lia|].
  destruct (Z.leb_spec (mem_end s) p); [lia|].
  reflexivity.
Qed.

Lemma aligned_add s x z :
  aligned_to s x -> z mod 8 = 0 -> aligned_to s (x + z).
Proof.
  unfold aligned_to. intros Hx Hz.
  replace (x + z - mem_begin s) with (x - mem_begin s + z) by lia.
  now apply mod8_add.
Qed.

Lemma aligned_sub s x z :
  aligned_to s x -> z mod 8 = 0 -> aligned_to s (x - z).
Proof.
  unfold aligned_to. intros Hx Hz.
  replace (x - z - mem_begin s) with (x - mem_begin s - z) by lia.
  now apply mod8_sub.
Qed.

Lemma wrapped_sum_aligned a b :
  0 <= a < 2 ^ 63 -> a mod 8 = 0 ->
  0 <= b < 2 ^ 63 -> b mod 8 = 0 ->
  0 <= wrap63 (wrap64 (a + b)) < 2 ^ 63 /\
  wrap63 (wrap64 (a + b)) mod 8 = 0.
Proof.
  intros Ha Ham Hb Hbm. rewrite wrap64_small by lia. unfold wrap63.
  split; [apply Z.mod_pos_bound; lia|].
  rewrite Z.mod_mod_divide by (exists (2 ^ 60); reflexivity).
  now apply mod8_add.
Qed.

Lemma put_tags_aligned s a w :
  tags_aligned s ->
  0 <= size w < 2 ^ 63 -> size w mod 8 = 0 ->
  tags_aligned (put s a w).
Proof.
  intros Hs Hw Hm x Hx. rewrite put_heap.
  destruct (x =? a); [now split | now apply Hs].
Qed.

Lemma absorb_aligned s x0 y :
  tags_aligned s -> aligned_to s x0 -> aligned_to s y ->
  exists s',
    absorb x0 y Relaxed s = Done tt s' /\
    tags_aligned s' /\ mem_begin s' = mem_begin s.
Proof.
  intros Hs Hx Hy. unfold absorb.
  rewrite !bind_load, bind_store_size.
  rewrite (bind_done _ _ _ _ _ _
             (tail_run_or Relaxed _ x0 (or_introl eq_refl))).
  rewrite copy_run. eexists. split; [reflexivity|].
  split; [|reflexivity].
  destruct (Hs x0 Hx) as [R0 M0]. destruct (Hs y Hy) as [R1 M1].
  destruct (wrapped_sum_aligned _ _ R0 M0 R1 M1) as [R M].
  apply put_tags_aligned.
  - now apply put_tags_aligned.
  - rewrite put_heap, Z.eqb_refl. exact R.
  - rewrite put_heap, Z.eqb_refl. exact M.
Qed.

Lemma union_prev_aligned s block :
  tags_aligned s -> aligned_to s block ->
  exists b' s',
    union_prev block Relaxed s = Done b' s' /\
    tags_aligned s' /\ aligned_to s' b' /\
    mem_begin s' = mem_begin s.
Proof.
  intros Hs Hb. unfold union_prev. rewrite bind_get_begin.
  destruct (negb (block =? mem_begin s)); [|now exists block, s].
  rewrite (bind_done _ _ _ _ _ _ (prev_run_relaxed s block)).
  rewrite bind_load.
  set (prv := block - sizeof_tag + sizeof_tag
              - size (heap s (block - sizeof_tag))).
  assert (Hp : aligned_to s prv).
  { unfold prv.
    replace (block - sizeof_tag + sizeof_tag) with block by lia.
    apply aligned_sub; [exact Hb|].
    apply Hs. now apply aligned_sub. }
  destruct (busy (heap s prv)); cbn [negb]; [now exists block, s|].
  destruct (absorb_aligned s prv block Hs Hp Hb) as (s' & Hrun & Hs' & Hb').
  exists prv, s'. rewrite (bind_done _ _ _ _ _ _ Hrun).
  split; [reflexivity|]. split; [exact Hs'|]. split; [|exact Hb'].
  unfold aligned_to in *. now rewrite Hb'.
Qed.

Lemma union_next_aligned s block :
  tags_aligned s -> aligned_to s block ->
  exists s',
    union_next block Relaxed s = Done tt s' /\ tags_aligned s'.
Proof.
  intros Hs Hb. unfold union_next.
  rewrite (bind_done _ _ _ _ _ _
             (next_run_or Relaxed s block (or_introl eq_refl))).
  rewrite bind_get_end.
  destruct (negb (block + size (heap s block) =? mem_end s));
    [|now exists s].
  rewrite bind_load.
  destruct (negb (busy (heap s (block + size (heap s block)))));
    [|now exists s].
  destruct (absorb_aligned s block (block + size (heap s block)) Hs Hb)
    as (s' & Hrun & Hs' & _).
  { apply aligned_add; [exact Hb | now apply Hs]. }
  now exists s'.
Qed.

(** With the pointer and every tag it leads to aligned, the call only
    stores whole aligned tags, and the memory stays one of well-formed
    aligned tags. *)
Lemma myfree_in_bounds_aligned s p :
  p <> nullptr -> mem_begin s <= p < mem_end s ->
  aligned_to s p -> tags_aligned s ->
  busy (heap s (from_user_mem p)) = true ->
  exists s', myfree p Relaxed s = Done tt s' /\ tags_aligned s'.
Proof.
  intros Hn Hr Hp Hs Hb.
  rewrite (myfree_in_bounds_first_store s p Hn Hr Hb).
  set (hd := from_user_mem p) in *.
  assert (Hh : aligned_to s hd).
  { unfold hd, from_user_mem, sizeof_tag. now apply aligned_sub. }
  destruct (Hs hd Hh) as [R M].
  set (s1 := put s hd (mkTag (size (heap s hd)) false)).
  assert (Hs1 : tags_aligned s1) by now apply put_tags_aligned.
  rewrite (bind_done _ _ _ _ _ _
             (tail_run_or Relaxed s1 hd (or_introl eq_refl))).
  rewrite bind_copy.
  match goal with
  | |- exists s', bind (union_prev hd) _ Relaxed ?st = _ /\ _ =>
      set (s2 := st)
  end.
  assert (Hs2 : tags_aligned s2).
  { unfold s2. apply put_tags_aligned; [exact Hs1 | |];
      unfold s1; rewrite put_heap, Z.eqb_refl; cbn [size]; assumption. }
  destruct (union_prev_aligned s2 hd Hs2 Hh) as (b' & s3 & Hrun3 & Hs3 & Hb3 & _).
  destruct (union_next_aligned s3 b' Hs3 Hb3) as (s4 & Hrun4 & Hs4).
  exists s4. rewrite (bind_done _ _ _ _ _ _ Hrun3). now split.
Qed.

(** ** Checking a concrete arena *)

Ltac arena_by_computation :=
  unfold arena, arena_ok, block_ok; cbn; repeat split;
  try reflexivity; try lia; try discriminate.

(** * The claims *)

(** C1. For [sz > 0] and [blockSize = roundUp8 (sz + 2 * tagWidth)]: when the
    scan of [myalloc], having passed over the blocks [l1] (busy, or smaller
    than [blockSize]), reaches a free block [t] of size greater than
    [blockSize + 4 * tagWidth], that block stays free at its position with
    size [size t - blockSize], header and footer rewritten; a busy block of
    exactly [blockSize] takes the tail of the old block; and the payload
    position of the new block is returned. *)
Theorem myalloc_splits_large_block c fuel s l1 t l2 sz :
  arena s (l1 ++ t :: l2) -> arena_ok s ->
  0 < sz < 2 ^ 64 ->
  Forall (skipped (roundUp8 (sz + 2 * sizeof_tag))) l1 ->
  busy t = false ->
  roundUp8 (sz + 2 * sizeof_tag) + 4 * sizeof_tag < size t ->
  (length l1 < fuel)%nat ->
  exists s',
    myalloc fuel sz c s =
      Done (mem_begin s + total l1
            + (size t - roundUp8 (sz + 2 * sizeof_tag)) + sizeof_tag) s' /\
    mem_begin s' = mem_begin s /\ mem_end s' = mem_end s /\
    arena s' (l1 ++ mkTag (size t - roundUp8 (sz + 2 * sizeof_tag)) false
                 :: mkTag (roundUp8 (sz + 2 * sizeof_tag)) true :: l2).
Proof.
  intros Ha Hok Hsz Hsk Hfree Hbig Hfuel.
  pose proof (arena_size_bound _ _ _ _ Ha Hok) as H63.
  pose proof (roundUp8_bounds (sz + 2 * sizeof_tag)) as Hr.
  assert (Hno : sz + 23 < 2 ^ 64) by (unfold sizeof_tag in *; lia).
  destruct (block_size_facts sz ltac:(lia) Hno) as (E & H16 & Hmod).
  rewrite <- E in *.
  apply myalloc_split_core; auto. lia.
Qed.

Lemma myalloc_splits_large_block_witness :
  exists s',
    myalloc 2 16 Strict fresh_1024 =
      Done (mem_begin fresh_1024 + total []
            + (size (mkTag 1024 false) - roundUp8 (16 + 2 * sizeof_tag))
            + sizeof_tag) s' /\
    mem_begin s' = mem_begin fresh_1024 /\ mem_end s' = mem_end fresh_1024 /\
    arena s' ([] ++ mkTag (size (mkTag 1024 false)
                           - roundUp8 (16 + 2 * sizeof_tag)) false
                 :: mkTag (roundUp8 (16 + 2 * sizeof_tag)) true :: []).
Proof.
  apply (myalloc_splits_large_block Strict 2 fresh_1024 []
           (mkTag 1024 false) [] 16).
  - arena_by_computation.
  - arena_by_computation.
  - lia.
  - constructor.
  - reflexivity.
  - reflexivity.
  - cbn. lia.
Defined.

(** C2. For [sz > 0] and [blockSize = roundUp8 (sz + 2 * tagWidth)]: when the
    scan reaches a free block whose size lies in
    [[blockSize, blockSize + 4 * tagWidth]], the whole block is allocated:
    header and footer become busy, the size stays, nothing is split off, the
    blocks behind are untouched, and its payload position is returned. *)
Theorem myalloc_takes_near_fit_whole c fuel s l1 t l2 sz :
  arena s (l1 ++ t :: l2) -> arena_ok s ->
  0 < sz < 2 ^ 64 ->
  Forall (skipped (roundUp8 (sz + 2 * sizeof_tag))) l1 ->
  busy t = false ->
  roundUp8 (sz + 2 * sizeof_tag) <= size t
    <= roundUp8 (sz + 2 * sizeof_tag) + 4 * sizeof_tag ->
  (length l1 < fuel)%nat ->
  exists s',
    myalloc fuel sz c s = Done (mem_begin s + total l1 + sizeof_tag) s' /\
    mem_begin s' = mem_begin s /\ mem_end s' = mem_end s /\
    arena s' (l1 ++ mkTag (size t) true :: l2).
Proof.
  intros Ha Hok Hsz Hsk Hfree Hfit Hfuel.
  pose proof (arena_size_bound _ _ _ _ Ha Hok) as H63.
  pose proof (roundUp8_bounds (sz + 2 * sizeof_tag)) as Hr.
  assert (Hno : sz + 23 < 2 ^ 64) by (unfold sizeof_tag in *; lia).
  destruct (block_size_facts sz ltac:(lia) Hno) as (E & H16 & Hmod).
  rewrite <- E in *.
  apply myalloc_whole_core; auto; unfold sizeof_tag in *; lia.
Qed.

Lemma myalloc_takes_near_fit_whole_witness :
  exists s',
    myalloc 2 16 Strict (arena_at_4096 [mkTag 48 false]) =
      Done (mem_begin (arena_at_4096 [mkTag 48 false]) + total []
            + sizeof_tag) s' /\
    mem_begin s' = mem_begin (arena_at_4096 [mkTag 48 false]) /\
    mem_end s' = mem_end (arena_at_4096 [mkTag 48 false]) /\
    arena s' ([] ++ mkTag (size (mkTag 48 false)) true :: []).
Proof.
  apply (myalloc_takes_near_fit_whole Strict 2
           (arena_at_4096 [mkTag 48 false]) [] (mkTag 48 false) [] 16).
  - arena_by_computation.
  - arena_by_computation.
  - lia.
  - constructor.
  - reflexivity.
  - split; discriminate.
  - cbn. lia.
Defined.

(** C3. The round trip [myfree (myalloc n)] does not restore the partition
    for every [n]: for [n = 2^64 - 15] the block size wraps around to 8, so
    on a fresh arena of 1024 bytes [myalloc] carves a block of 8 bytes whose
    payload position is [mem::end]; [myfree] then ignores that pointer
    (without assertions) or aborts (with them), and the arena stays split
    into a free block of 1016 bytes and a busy block of 8 bytes. *)
Theorem round_trip_broken_by_wrapped_block_size :
  block_size (2 ^ 64 - 15) = 8 /\
  observe (myalloc 4 (2 ^ 64 - 15) Relaxed fresh_1024) =
    Some (mem_end fresh_1024,
          [(4096, mkTag 1016 false); (5112, mkTag 8 true)]) /\
  observe ((p <- myalloc 4 (2 ^ 64 - 15) ;; myfree p) Relaxed fresh_1024) =
    Some (tt, [(4096, mkTag 1016 false); (5112, mkTag 8 true)]) /\
  (p <- myalloc 4 (2 ^ 64 - 15) ;; myfree p) Strict fresh_1024 = Abort.
Proof. repeat split; vm_compute; reflexivity. Qed.

(** C4, as the spec states it: after any call of [myfree] that returns, a
    walk finds no two consecutive free blocks.  The arena
    [stray_tag_in_front] is one free block of 1024 bytes at address 4096, so
    no two adjacent blocks of it are free, and the eight bytes in front of
    it read as a busy tag of size 16.  [myfree] of the pointer [mem::begin],
    which lies in bounds and is no block's payload position, returns in
    both builds; afterwards the tag at [mem::begin] is free with size 16 and
    the tag behind it, at [mem::begin + 16], is free with size 32, and no
    list of blocks without adjacent free blocks partitions the arena. *)
Lemma myfree_stray_pointer_counterexample :
  arena stray_tag_in_front [mkTag 1024 false] /\
  adjacent_free [mkTag 1024 false] = false /\
  mem_begin stray_tag_in_front <= 4096 < mem_end stray_tag_in_front /\
  exists s',
    myfree 4096 Strict stray_tag_in_front = Done tt s' /\
    myfree 4096 Relaxed stray_tag_in_front = Done tt s' /\
    mem_begin s' = 4096 /\ mem_end s' = 5120 /\
    heap s' 4096 = mkTag 16 false /\
    next 4096 Strict s' = Done 4112 s' /\
    heap s' 4112 = mkTag 32 false /\
    ~ (exists l', arena s' l' /\ adjacent_free l' = false).
Proof.
  split; [arena_by_computation|]. split; [reflexivity|].
  split; [cbn; lia|].
  destruct (myfree 4096 Strict stray_tag_in_front) as [[] s'| |] eqn:E;
    try (vm_compute in E; discriminate).
  exists s'. split; [reflexivity|].
  vm_compute in E. injection E as <-.
  split; [vm_compute; reflexivity|].
  split; [reflexivity|]. split; [reflexivity|]. split; [reflexivity|].
  split; [vm_compute; reflexivity|]. split; [reflexivity|].
  intros (l' & Hl & _). destruct l' as [|t l'].
  - cbn in Hl. discriminate.
  - destruct Hl as (H1 & H2 & _). rewrite <- H1 in H2.
    vm_compute in H2. discriminate.
Qed.

(** C4, amended. When no two adjacent blocks of the arena are free, a call
    of [myfree] on the null pointer, on a pointer outside the arena or on
    the payload position of a block returns with an arena in which a walk
    finds no two consecutive free blocks: either the arena is as it was, or
    a busy block was released and united once with a free left and once
    with a free right neighbour, and that is enough.  Only with assertions
    compiled in, and only for an argument that is out of bounds or whose
    block is free already, the call aborts instead. *)
Theorem myfree_leaves_no_adjacent_free c s l p :
  arena s l -> arena_ok s ->
  adjacent_free l = false ->
  free_arg_ok s l p ->
  (exists s' l',
     myfree p c s = Done tt s' /\
     mem_begin s' = mem_begin s /\ mem_end s' = mem_end s /\
     arena s' l' /\ free_result l l' /\ adjacent_free l' = false)
  \/ (c = Strict /\ myfree p c s = Abort /\
      (p < mem_begin s \/ mem_end s <= p \/
       busy (heap s (from_user_mem p)) = false)).
Proof.
  intros Ha Hok Hnaf Harg.
  destruct (myfree_cases c s l p Ha Hok Harg)
    as [(s' & l' & Hrun & Hb & He & Ha' & Hres) | H]; [left | now right].
  exists s', l'. split; [exact Hrun|]. split; [exact Hb|].
  split; [exact He|]. split; [exact Ha'|]. split; [exact Hres|].
  destruct Hres as [| l1 t l2 -> Hbusy]; [exact Hnaf|].
  now apply freed_no_adjacent_free.
Qed.

Lemma myfree_leaves_no_adjacent_free_witness :
  (exists s' l',
     myfree 4568 Strict (arena_at_4096 three_blocks) = Done tt s' /\
     mem_begin s' = mem_begin (arena_at_4096 three_blocks) /\
     mem_end s' = mem_end (arena_at_4096 three_blocks) /\
     arena s' l' /\ free_result three_blocks l' /\
     adjacent_free l' = false)
  \/ (Strict = Strict /\
      myfree 4568 Strict (arena_at_4096 three_blocks) = Abort /\
      (4568 < mem_begin (arena_at_4096 three_blocks) \/
       mem_end (arena_at_4096 three_blocks) <= 4568 \/
       busy (heap (arena_at_4096 three_blocks) (from_user_mem 4568))
       = false)).
Proof.
  apply (myfree_leaves_no_adjacent_free Strict (arena_at_4096 three_blocks)
           three_blocks 4568).
  - arena_by_computation.
  - arena_by_computation.
  - reflexivity.
  - right. right. right.
    exists [mkTag 464 false], (mkTag 528 true), [mkTag 32 false].
    split; reflexivity.
Defined.

(** C5. Not every call of [myalloc] preserves the partition invariant: for
    [sz = 2^64 - 23] the block size wraps around to 0.  On a fresh arena of
    1024 bytes the call then, without assertions, returns a pointer behind
    [mem::end], having written the tag [{0, busy}] at [mem::end] and over
    the footer of the free block, whose header still reads [{1024, free}]:
    no list of blocks partitions the arena any more.  With assertions the
    call aborts.  For [sz = 2^64 - 15] the block size wraps to 8 and a block
    of 8 bytes, below the minimum of 16, is carved. *)
Theorem myalloc_breaks_partition_on_wrapped_block_size :
  block_size (2 ^ 64 - 23) = 0 /\
  partition_inv fresh_1024 /\
  (exists p s',
     myalloc 4 (2 ^ 64 - 23) Relaxed fresh_1024 = Done p s' /\
     p = mem_end fresh_1024 + sizeof_tag /\
     heap s' (mem_begin s') = mkTag 1024 false /\
     heap s' (mem_end s' - sizeof_tag) = mkTag 0 true /\
     heap s' (mem_end s') = mkTag 0 true /\
     ~ partition_inv s') /\
  myalloc 4 (2 ^ 64 - 23) Strict fresh_1024 = Abort /\
  observe (myalloc 4 (2 ^ 64 - 15) Strict fresh_1024) =
    Some (5120, [(4096, mkTag 1016 false); (5112, mkTag 8 true)]).
Proof.
  split; [reflexivity|]. split.
  { exists [mkTag 1024 false]. arena_by_computation. }
  split; [|split; vm_compute; reflexivity].
  destruct (myalloc 4 (2 ^ 64 - 23) Relaxed fresh_1024) as [p s'| |] eqn:E;
    try (vm_compute in E; discriminate).
  exists p, s'. split; [reflexivity|].
  vm_compute in E. injection E as <- <-.
  repeat split; try reflexivity.
  intros [l Hl]. destruct l as [|t l].
  - cbn in Hl. discriminate.
  - destruct Hl as (H1 & H2 & _). rewrite <- H1 in H2.
    vm_compute in H2. discriminate.
Qed.

(** C6, as the spec states it: after [mysetup (buf, 1024)] and
    [myalloc 16] the arena would be a busy block followed by a free block.
    On the arena at address 4096 the walk instead meets the free block of
    992 bytes first and the busy block of 32 bytes behind it, so no two
    blocks in the stated order partition the arena. *)
Lemma first_alloc_order_counterexample :
  mysetup 4096 1024 Strict boot = Done tt fresh_1024 /\
  exists p s',
    myalloc 4 16 Strict fresh_1024 = Done p s' /\
    arena s' [mkTag 992 false; mkTag 32 true] /\
    ~ (exists t1 t2,
         arena s' [t1; t2] /\ busy t1 = true /\ busy t2 = false).
Proof.
  split; [reflexivity|].
  destruct (scenario_first_alloc Strict 4 boot 4096 fresh_1024 eq_refl
              ltac:(lia) ltac:(lia)) as (s' & Hrun & _ & _ & Ha & _).
  exists (4096 + 1000), s'. split; [exact Hrun|]. split; [exact Ha|].
  intros (t1 & t2 & Ha' & Hb1 & _).
  pose proof (blocks_unique _ _ _ _ _ Ha Ha') as E.
  injection E as <- _. discriminate.
Qed.

(** C6, amended. After [mysetup (buf, 1024)], [myalloc 16] returns the
    non-null pointer [buf + 1000] and leaves the arena as two blocks, in
    this order from [mem::begin]: a free block of 992 bytes, then a busy
    block of 32 bytes. *)
Theorem first_alloc_leaves_free_then_busy c fuel s0 buf s1 :
  mysetup buf 1024 c s0 = Done tt s1 ->
  0 < buf -> (1 < fuel)%nat ->
  exists s2,
    myalloc fuel 16 c s1 = Done (buf + 1000) s2 /\
    buf + 1000 <> nullptr /\
    mem_begin s2 = buf /\ mem_end s2 = buf + 1024 /\
    arena s2 [mkTag 992 false; mkTag 32 true] /\
    walk (S fuel) (mem_begin s2) c s2 =
      Done [(buf, mkTag 992 false); (buf + 992, mkTag 32 true)] s2.
Proof.
  intros Hset Hbuf Hfuel.
  destruct (scenario_first_alloc c fuel s0 buf s1 Hset Hbuf Hfuel)
    as (s2 & Hrun & Hb & He & Ha & _).
  exists s2. split; [exact Hrun|]. split; [unfold nullptr; lia|].
  split; [exact Hb|]. split; [exact He|]. split; [exact Ha|].
  rewrite (walk_blocks c s2 _ (mem_begin s2) (S fuel) Ha).
  - now rewrite Hb.
  - cbn [length]. lia.
Qed.

Lemma first_alloc_leaves_free_then_busy_witness :
  exists s2,
    myalloc 2 16 Strict fresh_1024 = Done (4096 + 1000) s2 /\
    4096 + 1000 <> nullptr /\
    mem_begin s2 = 4096 /\ mem_end s2 = 4096 + 1024 /\
    arena s2 [mkTag 992 false; mkTag 32 true] /\
    walk 3 (mem_begin s2) Strict s2 =
      Done [(4096, mkTag 992 false); (4096 + 992, mkTag 32 true)] s2.
Proof.
  apply (first_alloc_leaves_free_then_busy Strict 2 boot 4096 fresh_1024).
  - reflexivity.
  - lia.
  - lia.
Defined.

(** C7. After [mysetup (buf, 1024)] and the calls [myalloc 16],
    [myalloc 512], [myalloc 1024] (which returns null) and [myalloc 12],
    releasing the three non-null pointers in any of their six orders leaves
    the arena as one free block of 1024 bytes. *)
Theorem scenario_free_in_any_order c fuel s0 buf s1 :
  mysetup buf 1024 c s0 = Done tt s1 ->
  0 < buf -> (4 < fuel)%nat ->
  exists p1 p2 p3 s2,
    scenario_allocs fuel c s1 = Done (p1, p2, nullptr, p3) s2 /\
    p1 <> nullptr /\ p2 <> nullptr /\ p3 <> nullptr /\
    forall order,
      Permutation order [p1; p2; p3] ->
      exists s3,
        free_all order c s2 = Done tt s3 /\
        mem_begin s3 = buf /\ mem_end s3 = buf + 1024 /\
        arena s3 [mkTag 1024 false].
Proof.
  intros Hset Hbuf Hfuel.
  destruct (scenario_allocs_run c fuel s0 buf s1 Hset Hbuf Hfuel)
    as (s2 & Hrun & Hb & He & Ha & Hok).
  exists (buf + 1000), (buf + 472), (buf + 440), s2.
  split; [exact Hrun|]. unfold nullptr.
  split; [lia|]. split; [lia|]. split; [lia|].
  intros order Hperm.
  assert (Hoffs : exists offs,
            Permutation offs [1000; 472; 440] /\
            order = map (Z.add (mem_begin s2)) offs).
  { rewrite Hb. apply Permutation_three in Hperm.
    destruct Hperm as [-> | [-> | [-> | [-> | [-> | ->]]]]];
      [exists [1000; 472; 440] | exists [1000; 440; 472]
      | exists [472; 1000; 440] | exists [472; 440; 1000]
      | exists [440; 1000; 472] | exists [440; 472; 1000]];
      (split; [|reflexivity]).
    - apply Permutation_refl.
    - apply perm_skip, perm_swap.
    - apply perm_swap.
    - eapply perm_trans; [apply perm_skip, perm_swap | apply perm_swap].
    - eapply perm_trans; [apply perm_swap | apply perm_skip, perm_swap].
    - eapply perm_trans; [apply perm_skip, perm_swap|].
      eapply perm_trans; [apply perm_swap | apply perm_skip, perm_swap]. }
  destruct Hoffs as (offs & Hp & ->).
  destruct (free_all_release c offs s2 _ _ Ha Hok
              (scenario_release_all offs Hp))
    as (s3 & Hrun3 & Hb3 & He3 & Ha3).
  exists s3. split; [exact Hrun3|].
  split; [congruence|]. split; [congruence|]. exact Ha3.
Qed.

Lemma scenario_free_in_any_order_witness :
  exists p1 p2 p3 s2,
    scenario_allocs 5 Strict fresh_1024 = Done (p1, p2, nullptr, p3) s2 /\
    p1 <> nullptr /\ p2 <> nullptr /\ p3 <> nullptr /\
    forall order,
      Permutation order [p1; p2; p3] ->
      exists s3,
        free_all order Strict s2 = Done tt s3 /\
        mem_begin s3 = 4096 /\ mem_end s3 = 4096 + 1024 /\
        arena s3 [mkTag 1024 false].
Proof.
  apply (scenario_free_in_any_order Strict 5 boot 4096 fresh_1024).
  - reflexivity.
  - lia.
  - lia.
Defined.

(** C8. With assertions disabled, [myfree] returns without having changed
    the state when its argument is null, lies outside
    [[mem::begin, mem::end)], or has in front of it a tag whose busy flag
    is false: each of these checks precedes every store. *)
Theorem myfree_invalid_is_noop_relaxed s p :
  p = nullptr \/ p < mem_begin s \/ mem_end s <= p \/
  busy (heap s (from_user_mem p)) = false ->
  myfree p Relaxed s = Done tt s.
Proof. apply myfree_ignores_relaxed. Qed.

Lemma myfree_invalid_is_noop_relaxed_witness :
  myfree 5096 Relaxed (arena_at_4096 three_blocks) =
  Done tt (arena_at_4096 three_blocks).
Proof.
  apply (myfree_invalid_is_noop_relaxed (arena_at_4096 three_blocks) 5096).
  right. right. right. reflexivity.
Defined.

(** C9. A request beyond the capacity of the arena is not always refused:
    for [sz = 2^64 - 1] the block size wraps around to 16, and on a fresh
    arena of 1024 bytes, whose only block is smaller than the spec's
    [roundUp8 (sz + 2 * tagWidth)], [myalloc] returns a non-null pointer
    and splits the arena into a free block of 1008 bytes and a busy block
    of 16 bytes. *)
Theorem oversized_request_served_on_wrapped_block_size :
  block_size (2 ^ 64 - 1) = 16 /\
  Forall (skipped (roundUp8 (2 ^ 64 - 1 + 2 * sizeof_tag)))
    [mkTag 1024 false] /\
  arena fresh_1024 [mkTag 1024 false] /\
  observe (myalloc 4 (2 ^ 64 - 1) Strict fresh_1024) =
    Some (5112, [(4096, mkTag 1008 false); (5104, mkTag 16 true)]).
Proof.
  split; [reflexivity|]. split.
  { constructor; [|constructor]. right. reflexivity. }
  split; [arena_by_computation|]. vm_compute. reflexivity.
Qed.

(** C10. The bounds check of [myfree] lets every non-null pointer [p] with
    [mem::begin <= p < mem::end] through, payload position or not: in both
    builds the call goes on as for the header [p - tagWidth].  The tag there
    is read: without assertions the call changes nothing when its busy flag
    is false.  When [p] is a multiple of 8 bytes from [mem::begin], the
    words at such distances read as tags of well-formed size, and that flag
    is true, the call first clears the flag in place, goes on with the
    unions, and returns with the tag changed, in a memory of the same
    kind.  [p = mem::begin] is such a pointer: it is the payload position of
    no block, and the tag in front of it lies in front of the arena. *)
Theorem in_bounds_check_does_not_validate_payload s l p :
  arena s l ->
  p <> nullptr -> mem_begin s <= p < mem_end s ->
  (forall c, myfree p c s = myfree_resolved (from_user_mem p) c s) /\
  (busy (heap s (from_user_mem p)) = false ->
   myfree p Relaxed s = Done tt s) /\
  (aligned_to s p -> tags_aligned s ->
   busy (heap s (from_user_mem p)) = true ->
   myfree p Relaxed s =
     (tl <- tail (from_user_mem p) ;;
      copy tl (from_user_mem p) ;;
      block' <- union_prev (from_user_mem p) ;;
      union_next block') Relaxed
       (put s (from_user_mem p)
          (mkTag (size (heap s (from_user_mem p))) false)) /\
   exists s',
     myfree p Relaxed s = Done tt s' /\
     busy (heap s' (from_user_mem p)) = false /\
     heap s' (from_user_mem p) <> heap s (from_user_mem p) /\
     tags_aligned s') /\
  (p = mem_begin s ->
   aligned_to s p /\
   from_user_mem p < mem_begin s /\
   forall l1 t l2, l = l1 ++ t :: l2 -> ~ payload_at s l1 p).
Proof.
  intros Ha Hn Hr. split; [|split; [|split]].
  - intros c. now apply myfree_passes_bounds_check.
  - intros Hb. apply myfree_ignores_relaxed. tauto.
  - intros Hp Hs Hb. split; [now apply myfree_in_bounds_first_store|].
    destruct (myfree_in_bounds s p Hn Hr Hb) as (s' & Hrun & Hw).
    destruct (myfree_in_bounds_aligned s p Hn Hr Hp Hs Hb)
      as (s2 & Hrun2 & Hs2).
    rewrite Hrun in Hrun2. injection Hrun2 as <-.
    exists s'. split; [exact Hrun|]. split; [exact Hw|].
    split; [|exact Hs2].
    intros E. rewrite E, Hb in Hw. discriminate.
  - intros ->. split; [|split].
    + unfold aligned_to. now rewrite Z.sub_diag.
    + unfold from_user_mem, sizeof_tag. lia.
    + intros l1 t l2 -> Hp.
      pose proof (payload_behind_begin s l1 t l2 _ Ha Hp).
      unfold sizeof_tag in *. lia.
Qed.

Lemma in_bounds_check_does_not_validate_payload_witness :
  (forall c,
     myfree 4096 c stray_tag_in_front =
     myfree_resolved (from_user_mem 4096) c stray_tag_in_front) /\
  (exists s',
     myfree 4096 Relaxed stray_tag_in_front = Done tt s' /\
     busy (heap s' (from_user_mem 4096)) = false /\
     heap s' (from_user_mem 4096)
     <> heap stray_tag_in_front (from_user_mem 4096) /\
     tags_aligned s') /\
  from_user_mem 4096 < mem_begin stray_tag_in_front.
Proof.
  destruct (in_bounds_check_does_not_validate_payload stray_tag_in_front
              [mkTag 1024 false] 4096) as (A & _ & C & D).
  - arena_by_computation.
  - discriminate.
  - cbn. lia.
  - split; [exact A|]. split.
    + apply C.
      * reflexivity.
      * intros x _. unfold stray_tag_in_front, layout, upd, zero_heap.
        cbn [heap size].
        repeat match goal with
               | |- context [?a =? ?b] => destruct (a =? b)
               end; cbn [size]; split; try lia; reflexivity.
      * reflexivity.
    + apply D. reflexivity.
Defined.

(** * The same properties for requests whose block size does not wrap *)

(** X1. Round trip.  On an arena that satisfies the invariants, for a
    request [sz] with [0 < sz <= 2^64 - 24], when [myalloc sz] returns a
    non-null pointer, [myfree] of that pointer returns and the arena is
    partitioned into exactly the blocks it had before the allocation. *)
Theorem round_trip_restores_partition c fuel s l sz p s1 :
  arena s l -> arena_ok s ->
  adjacent_free l = false ->
  0 < sz -> sz + 23 < 2 ^ 64 ->
  (length l < fuel)%nat ->
  myalloc fuel sz c s = Done p s1 ->
  p <> nullptr ->
  exists s2,
    myfree p c s1 = Done tt s2 /\
    mem_begin s2 = mem_begin s /\ mem_end s2 = mem_end s /\
    arena s2 l.
Proof. apply alloc_free_round_trip. Qed.

Lemma round_trip_restores_partition_witness :
  exists s2,
    myfree 5096 Strict after_first_alloc = Done tt s2 /\
    mem_begin s2 = mem_begin fresh_1024 /\
    mem_end s2 = mem_end fresh_1024 /\
    arena s2 [mkTag 1024 false].
Proof.
  apply (round_trip_restores_partition Strict 2 fresh_1024
           [mkTag 1024 false] 16 5096 after_first_alloc).
  - arena_by_computation.
  - arena_by_computation.
  - reflexivity.
  - lia.
  - lia.
  - cbn. lia.
  - reflexivity.
  - discriminate.
Defined.

(** X2. For a request [sz] with [0 < sz <= 2^64 - 24], [myalloc] on a
    partitioned arena returns, and leaves [mem::begin] and [mem::end] in
    place and the arena partitioned into blocks whose header equals their
    footer and whose sizes are multiples of 8 and at least 16. *)
Theorem myalloc_preserves_partition c fuel s l sz :
  arena s l -> arena_ok s ->
  0 < sz -> sz + 23 < 2 ^ 64 ->
  (length l < fuel)%nat ->
  exists p s',
    myalloc fuel sz c s = Done p s' /\
    mem_begin s' = mem_begin s /\ mem_end s' = mem_end s /\
    partition_inv s' /\ arena_ok s'.
Proof.
  intros Ha Hok H0 H1 Hfuel.
  destruct (myalloc_cases c fuel s l sz Ha Hok H0 H1 Hfuel)
    as (p & s' & l' & Hrun & Hb & He & Ha' & _).
  exists p, s'. split; [exact Hrun|]. split; [exact Hb|].
  split; [exact He|]. split; [now exists l'|].
  apply (arena_ok_same s s' Hb He Hok).
Qed.

Lemma myalloc_preserves_partition_witness :
  exists p s',
    myalloc 2 16 Strict fresh_1024 = Done p s' /\
    mem_begin s' = mem_begin fresh_1024 /\
    mem_end s' = mem_end fresh_1024 /\
    partition_inv s' /\ arena_ok s'.
Proof.
  apply (myalloc_preserves_partition Strict 2 fresh_1024
           [mkTag 1024 false] 16).
  - arena_by_computation.
  - arena_by_computation.
  - lia.
  - lia.
  - cbn. lia.
Defined.



(** X4. For a request [sz] with [0 < sz <= 2^64 - 24], when every block of
    the arena is busy or smaller than [roundUp8 (sz + 2 * tagWidth)],
    [myalloc] walks to [mem::end], returns null and leaves the state as it
    was. *)
Theorem myalloc_refuses_when_nothing_fits c fuel s l sz :
  arena s l ->
  0 < sz -> sz + 23 < 2 ^ 64 ->
  Forall (skipped (roundUp8 (sz + 2 * sizeof_tag))) l ->
  (length l < fuel)%nat ->
  myalloc fuel sz c s = Done nullptr s.
Proof.
  intros Ha H0 H1 Hsk Hfuel.
  apply (myalloc_out_of_memory c fuel s l sz Ha); [|exact Hfuel].
  now rewrite block_size_roundUp8 by lia.
Qed.

Lemma myalloc_refuses_when_nothing_fits_witness :
  myalloc 2 1024 Strict fresh_1024 = Done nullptr fresh_1024.
Proof.
  apply (myalloc_refuses_when_nothing_fits Strict 2 fresh_1024
           [mkTag 1024 false] 1024).
  - arena_by_computation.
  - lia.
  - lia.
  - constructor; [|constructor]. right. reflexivity.
  - cbn. lia.
Defined.

(** * Further properties of the code *)

(** ** Assertions only abort *)

Lemma aoa_ret {A} (a : A) : assertions_only_abort (ret a).
Proof. intros s a' s' H. exact H. Qed.

Lemma aoa_bind {A B} (m : M A) (k : A -> M B) :
  assertions_only_abort m ->
  (forall a, assertions_only_abort (k a)) ->
  assertions_only_abort (bind m k).
Proof.
  intros Hm Hk s b s' H. unfold bind in *.
  destruct (m Strict s) as [a s1| |] eqn:E; try discriminate.
  rewrite (Hm s a s1 E). now apply Hk.
Qed.

Lemma aoa_assert b : assertions_only_abort (assert_ b).
Proof.
  intros s a s' H. cbn in *. destruct b; [exact H | discriminate].
Qed.

Lemma aoa_pure {A} (m : M A) :
  (forall s, m Strict s = m Relaxed s) -> assertions_only_abort m.
Proof. intros E s a s' H. now rewrite <- E. Qed.

Ltac aoa :=
  repeat first
    [ apply aoa_ret
    | apply aoa_assert
    | apply aoa_pure; reflexivity
    | apply aoa_bind; [|intros ?]
    | match goal with
      | |- assertions_only_abort (if ?b then _ else _) => destruct b
      end ].

Lemma aoa_mysetup buf sz : assertions_only_abort (mysetup buf sz).
Proof. unfold mysetup. aoa. Qed.

Lemma aoa_myfree p : assertions_only_abort (myfree p).
Proof. unfold myfree. aoa. Qed.

Lemma aoa_myalloc_loop fuel : forall bsize block,
  assertions_only_abort (myalloc_loop fuel bsize block).
Proof.
  induction fuel as [|fuel IH]; intros bsize block.
  - intros s a s' H. discriminate.
  - cbn [myalloc_loop]. aoa; apply IH.
Qed.

Lemma aoa_myalloc fuel sz : assertions_only_abort (myalloc fuel sz).
Proof. unfold myalloc. aoa. apply aoa_myalloc_loop. Qed.

(** X5. Assertions only abort: whenever [mysetup], [myalloc] or [myfree]
    returns in a build with assertions, the build without them ([NDEBUG])
    returns the same result and leaves the same state. *)
Theorem debug_build_results_hold_under_ndebug buf sz fuel p :
  assertions_only_abort (mysetup buf sz) /\
  assertions_only_abort (myalloc fuel sz) /\
  assertions_only_abort (myfree p).
Proof.
  split; [apply aoa_mysetup|]. split; [apply aoa_myalloc | apply aoa_myfree].
Qed.

(** ** [mysetup] *)



(** X7. With assertions on, [mysetup (buf, sz)] aborts exactly when [buf]
    equals the value [mem::end] has from before the call: [tail] and [next]
    assert [head != mem::end] before [mysetup] has assigned [mem::end]. *)
Theorem mysetup_aborts_iff_buf_is_stale_end s buf sz :
  mysetup buf sz Strict s = Abort <-> buf = mem_end s.
Proof.
  split.
  - intros H. destruct (Z.eq_dec buf (mem_end s)) as [E|N]; [exact E|].
    rewrite (mysetup_run Strict s buf sz (or_intror N)) in H. discriminate.
  - apply mysetup_abort.
Qed.



(** ** Navigation *)

(** X9. On a partitioned arena the navigation helpers are inverse to each
    other and change nothing.  For the block [t] at address [a], behind the
    blocks [l1]: [tail a] is the footer of [t] and [head] of that footer is
    [a]; [next a] is the address behind [t] and [prev] of that address is
    [a] again (also when it is [mem::end]); [from_user_mem] undoes
    [user_mem]. *)
Theorem navigation_round_trips c s l1 t l2 :
  arena s (l1 ++ t :: l2) ->
  let a := mem_begin s + total l1 in
  tail a c s = Done (a + size t - sizeof_tag) s /\
  head (a + size t - sizeof_tag) c s = Done a s /\
  next a c s = Done (a + size t) s /\
  prev (a + size t) c s = Done a s /\
  user_mem a c s = Done (a + sizeof_tag) s /\
  from_user_mem (a + sizeof_tag) = a.
Proof.
  intros Ha a. apply blocks_app in Ha. destruct Ha as [Hpre Hq].
  fold a in Hpre, Hq.
  pose proof Hq as (H1 & H2 & [Hs _] & Hb).
  pose proof (blocks_le _ _ _ _ Hb) as Hle.
  pose proof (blocks_total_nonneg _ _ _ _ Hpre) as Hnn.
  unfold sizeof_tag in *.
  assert (Hne : a <> mem_end s) by lia.
  assert (Hnb : a + size t <> mem_begin s) by (unfold a; lia).
  rewrite (tail_run c s a Hne), (next_run c s a Hne),
    (user_mem_run c s a Hne), (prev_run c s _ Hnb).
  unfold head, bind, load, ret, from_user_mem, sizeof_tag.
  rewrite H1, H2. repeat split; apply (f_equal (fun z => Done z s)) || idtac;
    lia.
Qed.

Lemma navigation_round_trips_witness :
  let a := mem_begin (arena_at_4096 three_blocks)
           + total [mkTag 464 false] in
  tail a Strict (arena_at_4096 three_blocks) =
    Done (a + size (mkTag 528 true) - sizeof_tag)
      (arena_at_4096 three_blocks) /\
  head (a + size (mkTag 528 true) - sizeof_tag) Strict
    (arena_at_4096 three_blocks) = Done a (arena_at_4096 three_blocks) /\
  next a Strict (arena_at_4096 three_blocks) =
    Done (a + size (mkTag 528 true)) (arena_at_4096 three_blocks) /\
  prev (a + size (mkTag 528 true)) Strict (arena_at_4096 three_blocks) =
    Done a (arena_at_4096 three_blocks) /\
  user_mem a Strict (arena_at_4096 three_blocks) =
    Done (a + sizeof_tag) (arena_at_4096 three_blocks) /\
  from_user_mem (a + sizeof_tag) = a.
Proof.
  apply (navigation_round_trips Strict (arena_at_4096 three_blocks)
           [mkTag 464 false] (mkTag 528 true) [mkTag 32 false]).
  arena_by_computation.
Defined.

(** ** [mydump] *)

Lemma headers_sizes l : forall a,
  map (fun line => size (snd line)) (headers a l) = map size l.
Proof.
  induction l as [|t l IH]; intros a; [reflexivity|].
  cbn [headers map snd]. now rewrite IH.
Qed.

(** X10. On a partitioned arena, and with assertions compiled in, the loop
    of [mydump] visits every block exactly once, in address order from
    [mem::begin], stops at [mem::end], and leaves the state as it was; the
    sizes it reports add up to [mem::end - mem::begin]. *)
Theorem mydump_lists_every_block s l fuel :
  arena s l ->
  (length l < fuel)%nat ->
  mydump fuel Strict s = Done (headers (mem_begin s) l) s /\
  map (fun line => size (snd line)) (headers (mem_begin s) l) = map size l /\
  total l = mem_end s - mem_begin s.
Proof.
  intros Ha Hfuel. split; [|split].
  - unfold mydump. rewrite bind_get_begin. now apply walk_blocks.
  - apply headers_sizes.
  - pose proof (blocks_total _ _ _ _ Ha). lia.
Qed.

Lemma mydump_lists_every_block_witness :
  mydump 4 Strict (arena_at_4096 three_blocks) =
    Done (headers (mem_begin (arena_at_4096 three_blocks)) three_blocks)
      (arena_at_4096 three_blocks) /\
  map (fun line => size (snd line))
    (headers (mem_begin (arena_at_4096 three_blocks)) three_blocks)
  = map size three_blocks /\
  total three_blocks =
  mem_end (arena_at_4096 three_blocks)
  - mem_begin (arena_at_4096 three_blocks).
Proof.
  apply (mydump_lists_every_block (arena_at_4096 three_blocks)
           three_blocks 4).
  - arena_by_computation.
  - cbn. lia.
Defined.

(** ** Loops on a tag of size 0 *)

Lemma walk_spins fuel : forall c s p,
  p <> mem_end s -> size (heap s p) = 0 ->
  walk fuel p c s = Timeout.
Proof.
  induction fuel as [|fuel IH]; intros c s p Hp Hz; [reflexivity|].
  cbn [walk]. rewrite bind_get_end.
  destruct (Z.eqb_spec p (mem_end s)); [contradiction|].
  rewrite bind_load, bind_next by exact Hp. rewrite Hz, Z.add_0_r.
  unfold bind at 1. now rewrite IH.
Qed.

Lemma myalloc_loop_spins fuel : forall c s bs p,
  p <> mem_end s -> size (heap s p) = 0 ->
  busy (heap s p) = true \/ 0 < bs ->
  myalloc_loop fuel bs p c s = Timeout.
Proof.
  induction fuel as [|fuel IH]; intros c s bs p Hp Hz Hsk; [reflexivity|].
  rewrite myalloc_loop_skip; [|exact Hp|].
  - rewrite Hz, Z.add_0_r. now apply IH.
  - destruct Hsk as [Hb | Hbs]; [now left | right; lia].
Qed.

(** X11. The loops rely on positive block sizes.  When the first tag of the
    arena has size 0 and [mem::begin <> mem::end], the loop of [mydump]
    never reaches [mem::end], and neither does the scan of [myalloc] for a
    non-zero request whose block size is positive: no amount of fuel lets
    them return. *)
Theorem loops_spin_on_zero_size_tag c s fuel sz :
  mem_begin s <> mem_end s ->
  size (heap s (mem_begin s)) = 0 ->
  sz <> 0 -> 0 < block_size sz ->
  walk fuel (mem_begin s) c s = Timeout /\
  myalloc fuel sz c s = Timeout.
Proof.
  intros Hne Hz Hsz Hbs. split; [now apply walk_spins|].
  unfold myalloc.
  destruct (Z.eqb_spec sz 0) as [E|_]; [contradiction|].
  rewrite bind_get_begin. apply myalloc_loop_spins; auto.
Qed.

Lemma loops_spin_on_zero_size_tag_witness :
  walk 1000 (mem_begin (mkState zero_heap 4096 5120)) Strict
    (mkState zero_heap 4096 5120) = Timeout /\
  myalloc 1000 16 Strict (mkState zero_heap 4096 5120) = Timeout.
Proof.
  apply (loops_spin_on_zero_size_tag Strict (mkState zero_heap 4096 5120)
           1000 16).
  - discriminate.
  - reflexivity.
  - discriminate.
  - reflexivity.
Defined.

(** ** When [myalloc] succeeds, and what it hands out *)

Lemma skipped_not_fit bs l1 t l2 :
  Forall (skipped bs) (l1 ++ t :: l2) ->
  busy t = false -> bs <= size t -> False.
Proof.
  intros H Hb Hs. rewrite Forall_forall in H.
  destruct (H t ltac:(apply in_or_app; right; now left)) as [E | E];
    [congruence | lia].
Qed.

(** X12. For a request [sz] with [0 < sz <= 2^64 - 24] on a partitioned
    arena, [myalloc] returns null exactly when every block is busy or
    smaller than [roundUp8 (sz + 2 * tagWidth)]: a free block that is large
    enough is never missed. *)
Theorem myalloc_null_iff_nothing_fits c fuel s l sz p s' :
  arena s l -> arena_ok s ->
  0 < sz -> sz + 23 < 2 ^ 64 ->
  (length l < fuel)%nat ->
  myalloc fuel sz c s = Done p s' ->
  (p = nullptr <-> Forall (skipped (roundUp8 (sz + 2 * sizeof_tag))) l).
Proof.
  intros Ha Hok H0 H1 Hfuel Hrun.
  destruct (myalloc_cases c fuel s l sz Ha Hok H0 H1 Hfuel)
    as (p' & s1 & l' & Hrun' & Hb & He & Ha' & Hres).
  rewrite Hrun in Hrun'. injection Hrun' as <- <-.
  rewrite <- (block_size_roundUp8 sz) by lia.
  destruct Hok as [Hpos _].
  destruct Hres as [Hsk | l1 t l2 sa -> Hsk Hfree Hfit
                        | l1 t l2 sa -> Hsk Hfree Hbig].
  - tauto.
  - apply blocks_app in Ha. destruct Ha as [Hpre _].
    apply blocks_total_nonneg in Hpre. unfold nullptr, sizeof_tag in *.
    split; [lia|]. intros H. exfalso.
    apply (skipped_not_fit _ _ _ _ H Hfree). lia.
  - pose proof Ha as Ha0. apply blocks_app in Ha. destruct Ha as [Hpre _].
    apply blocks_total_nonneg in Hpre. unfold nullptr, sizeof_tag in *.
    split; [lia|]. intros H. exfalso.
    apply (skipped_not_fit _ _ _ _ H Hfree). lia.
Qed.

Lemma myalloc_null_iff_nothing_fits_witness :
  4096 + 1000 = nullptr <->
  Forall (skipped (roundUp8 (16 + 2 * sizeof_tag))) [mkTag 1024 false].
Proof.
  apply (myalloc_null_iff_nothing_fits Strict 2 fresh_1024
           [mkTag 1024 false] 16 (4096 + 1000) after_first_alloc).
  - arena_by_computation.
  - arena_by_computation.
  - lia.
  - lia.
  - cbn. lia.
  - reflexivity.
Defined.

Lemma blocks_total_mod8 h l : forall a e,
  blocks h a e l -> total l mod 8 = 0.
Proof.
  induction l as [|t l IH]; intros a e H; [reflexivity|].
  destruct H as (_ & _ & [_ Hm] & H). cbn [total].
  apply mod8_add; [exact Hm | eapply IH; eauto].
Qed.

(** Changing memory strictly between the header and the footer of a block
    keeps every block of the partition. *)
Lemma blocks_payload_write h h' l1 u l2 a e :
  blocks h a e (l1 ++ u :: l2) ->
  (forall x, x <= a + total l1 \/ a + total l1 + size u - sizeof_tag <= x ->
     h' x = h x) ->
  blocks h' a e (l1 ++ u :: l2).
Proof.
  intros Hb Hx. apply blocks_app in Hb. destruct Hb as [Hpre Hq].
  apply blocks_app. split.
  - revert Hpre. apply blocks_ext. intros x Hr. apply Hx. lia.
  - destruct Hq as (H1 & H2 & Hok & Hrest).
    pose proof Hok as [Hs _]. unfold sizeof_tag in *.
    cbn [blocks]. rewrite !Hx by (unfold sizeof_tag; lia).
    split; [exact H1|]. split; [exact H2|]. split; [exact Hok|].
    revert Hrest. apply blocks_ext. intros x Hr. apply Hx.
    unfold sizeof_tag. lia.
Qed.

(** X13. For a request [sz] with [0 < sz <= 2^64 - 24] on a partitioned
    arena, a non-null pointer [p] returned by [myalloc] is the payload
    position of a busy block of the new partition, a multiple of 8 bytes
    from [mem::begin], and the [sz] bytes at [p] end at or before the
    footer of that block; whatever is then written to memory strictly
    between that header and that footer, in particular to the [sz] bytes at
    [p], the arena stays partitioned into the same blocks. *)
Theorem myalloc_payload_has_room c fuel s l sz p s' :
  arena s l -> arena_ok s ->
  0 < sz -> sz + 23 < 2 ^ 64 ->
  (length l < fuel)%nat ->
  myalloc fuel sz c s = Done p s' ->
  p <> nullptr ->
  exists l1 u l2,
    arena s' (l1 ++ u :: l2) /\ busy u = true /\
    payload_at s' l1 p /\
    (p - mem_begin s') mod 8 = 0 /\
    p + sz <= mem_begin s' + total l1 + size u - sizeof_tag /\
    forall h',
      (forall x, x <= p - sizeof_tag \/
                 mem_begin s' + total l1 + size u - sizeof_tag <= x ->
         h' x = heap s' x) ->
      arena (mkState h' (mem_begin s') (mem_end s')) (l1 ++ u :: l2).
Proof.
  intros Ha Hok H0 H1 Hfuel Hrun Hp.
  destruct (myalloc_cases c fuel s l sz Ha Hok H0 H1 Hfuel)
    as (p' & s1 & l' & Hrun' & Hb & He & Ha' & Hres).
  rewrite Hrun in Hrun'. injection Hrun' as <- <-.
  destruct (block_size_facts sz H0 H1) as (E & H16 & Hmod).
  pose proof (roundUp8_bounds (sz + 2 * sizeof_tag)) as Hr.
  rewrite <- E in Hr.
  assert (Hgen : forall l1 u l2,
            arena s' (l1 ++ u :: l2) -> busy u = true ->
            p = mem_begin s' + total l1 + sizeof_tag ->
            sz + 2 * sizeof_tag <= size u ->
            exists l1 u l2,
              arena s' (l1 ++ u :: l2) /\ busy u = true /\
              payload_at s' l1 p /\
              (p - mem_begin s') mod 8 = 0 /\
              p + sz <= mem_begin s' + total l1 + size u - sizeof_tag /\
              forall h',
                (forall x, x <= p - sizeof_tag \/
                   mem_begin s' + total l1 + size u - sizeof_tag <= x ->
                   h' x = heap s' x) ->
                arena (mkState h' (mem_begin s') (mem_end s'))
                  (l1 ++ u :: l2)).
  { intros l1 u l2 Hau Hbu Hpu Hsu. exists l1, u, l2.
    split; [exact Hau|]. split; [exact Hbu|]. split; [exact Hpu|].
    pose proof Hau as Hau'. apply blocks_app in Hau'.
    destruct Hau' as [Hpre _]. apply blocks_total_mod8 in Hpre.
    unfold sizeof_tag in *. split; [|split].
    - replace (p - mem_begin s') with (total l1 + 8) by lia.
      now apply mod8_add.
    - lia.
    - intros h' Hh. unfold arena. cbn [heap mem_begin mem_end].
      apply (blocks_payload_write (heap s')); [exact Hau|].
      intros x Hx. apply Hh. unfold sizeof_tag in *. lia. }
  destruct Hres as [Hsk | l1 t l2 sa -> Hsk Hfree Hfit
                        | l1 t l2 sa -> Hsk Hfree Hbig].
  - contradiction.
  - apply (Hgen l1 (mkTag (size t) true) l2 Ha' eq_refl);
      cbn [size]; unfold sizeof_tag in *; lia.
  - change (l1 ++ mkTag (size t - block_size sz) false
               :: mkTag (block_size sz) true :: l2)
      with (l1 ++ [mkTag (size t - block_size sz) false]
               ++ mkTag (block_size sz) true :: l2) in Ha'.
    rewrite app_assoc in Ha'.
    apply (Hgen _ (mkTag (block_size sz) true) l2 Ha' eq_refl);
      rewrite ?total_app; cbn [size total]; unfold sizeof_tag in *; lia.
Qed.

Lemma myalloc_payload_has_room_witness :
  exists l1 u l2,
    arena after_first_alloc (l1 ++ u :: l2) /\ busy u = true /\
    payload_at after_first_alloc l1 5096 /\
    (5096 - mem_begin after_first_alloc) mod 8 = 0 /\
    5096 + 16 <= mem_begin after_first_alloc + total l1 + size u
                 - sizeof_tag /\
    forall h',
      (forall x, x <= 5096 - sizeof_tag \/
                 mem_begin after_first_alloc + total l1 + size u
                 - sizeof_tag <= x ->
         h' x = heap after_first_alloc x) ->
      arena (mkState h' (mem_begin after_first_alloc)
               (mem_end after_first_alloc)) (l1 ++ u :: l2).
Proof.
  apply (myalloc_payload_has_room Strict 2 fresh_1024 [mkTag 1024 false]
           16 5096 after_first_alloc).
  - arena_by_computation.
  - arena_by_computation.
  - lia.
  - lia.
  - cbn. lia.
  - reflexivity.
  - discriminate.
Defined.

(** ** The memory [myalloc] writes *)







(** ** The memory [myfree] writes *)










(** ** Releasing twice *)

(** X16. After [myfree] has released the payload position [p] of a busy
    block, a second [myfree p] right away finds the tag in front of [p]
    free: without assertions it changes nothing, with assertions it
    aborts. *)
Theorem double_free_is_caught c s l1 t l2 p :
  arena s (l1 ++ t :: l2) -> arena_ok s ->
  busy t = true ->
  payload_at s l1 p ->
  exists s',
    myfree p c s = Done tt s' /\
    myfree p Relaxed s' = Done tt s' /\
    myfree p Strict s' = Abort.
Proof.
  intros Ha Hok Hbusy Hp.
  destruct (myfree_blocks c s l1 t l2 p Ha Hok Hbusy Hp)
    as (s' & Hrun & _).
  assert (Hrel : myfree p Relaxed s = Done tt s').
  { destruct c; [now apply aoa_myfree | exact Hrun]. }
  pose proof (payload_header s l1 t l2 p Ha Hp) as Hh.
  pose proof Ha as Ha'. apply blocks_app in Ha'.
  destruct Ha' as [Hpre (_ & _ & [Hs _] & Hrest)].
  apply blocks_total_nonneg in Hpre. apply blocks_le in Hrest.
  destruct Hok as [Hpos _]. unfold payload_at, sizeof_tag in *.
  assert (Hn : p <> nullptr) by (unfold nullptr; lia).
  destruct (myfree_in_bounds s p Hn ltac:(lia) ltac:(now rewrite Hh))
    as (s2 & Hrun2 & Hfree).
  rewrite Hrel in Hrun2. injection Hrun2 as <-.
  exists s'. split; [exact Hrun|]. split.
  - apply myfree_ignores_relaxed. tauto.
  - apply myfree_rejects_strict; [exact Hn | tauto].
Qed.

Lemma double_free_is_caught_witness :
  exists s',
    myfree 4568 Strict (arena_at_4096 three_blocks) = Done tt s' /\
    myfree 4568 Relaxed s' = Done tt s' /\
    myfree 4568 Strict s' = Abort.
Proof.
  apply (double_free_is_caught Strict (arena_at_4096 three_blocks)
           [mkTag 464 false] (mkTag 528 true) [mkTag 32 false] 4568).
  - arena_by_computation.
  - arena_by_computation.
  - reflexivity.
  - reflexivity.
Defined.

(** ** [test_myalloc] *)

Lemma mydump_returns c s l fuel :
  arena s l -> (length l < fuel)%nat ->
  exists out, mydump fuel c s = Done out s.
Proof.
  intros Ha Hfuel. destruct c.
  - exists (headers (mem_begin s) l). unfold mydump.
    rewrite bind_get_begin. now apply walk_blocks.
  - now exists [].
Qed.

Lemma arena_is_same s s' buf l l' :
  arena_is s buf l ->
  mem_begin s' = mem_begin s -> mem_end s' = mem_end s ->
  arena s' l' ->
  arena_is s' buf l'.
Proof.
  intros (Hb & He & _ & Hok) Hb' He' Ha. unfold arena_is.
  split; [congruence|]. split; [congruence|]. split; [exact Ha|].
  exact (arena_ok_same s s' Hb' He' Hok).
Qed.

Lemma my_allocator_after c fuel s s' buf l l' sz q :
  arena_is s buf l ->
  myalloc fuel sz c s = Done q s' ->
  mem_begin s' = mem_begin s -> mem_end s' = mem_end s ->
  arena s' l' ->
  (length l' < fuel)%nat ->
  my_allocator fuel sz c s = Done q s' /\ arena_is s' buf l'.
Proof.
  intros Hat Hrun Hb He Ha Hfuel.
  destruct (mydump_returns c s' l' fuel Ha Hfuel) as (out & Hd).
  unfold my_allocator.
  rewrite (bind_done _ _ _ _ _ _ Hrun), (bind_done _ _ _ _ _ _ Hd).
  split; [reflexivity|]. eapply arena_is_same; eauto.
Qed.

Lemma my_allocator_split c fuel s buf l1 t l2 sz q :
  arena_is s buf (l1 ++ t :: l2) ->
  sz <> 0 ->
  2 * sizeof_tag <= block_size sz -> block_size sz mod 8 = 0 ->
  Forall (skipped (block_size sz)) l1 ->
  busy t = false ->
  block_size sz + 4 * sizeof_tag < size t ->
  q = buf + total l1 + (size t - block_size sz) + sizeof_tag ->
  (S (length (l1 ++ t :: l2)) < fuel)%nat ->
  exists s',
    my_allocator fuel sz c s = Done q s' /\
    arena_is s' buf (l1 ++ mkTag (size t - block_size sz) false
                        :: mkTag (block_size sz) true :: l2).
Proof.
  intros Hat Hsz H16 Hmod Hsk Hfree Hbig -> Hfuel.
  pose proof Hat as (Hb & He & Ha & Hok).
  rewrite length_app in Hfuel. cbn [length] in Hfuel.
  destruct (myalloc_split_core c fuel s l1 t l2 sz Ha Hok Hsz H16 Hmod Hsk
              Hfree Hbig ltac:(lia)) as (s' & Hrun & Hb' & He' & Ha').
  exists s'. rewrite Hb in Hrun.
  apply (my_allocator_after c fuel s s' buf _ _ sz _ Hat Hrun Hb' He' Ha').
  rewrite length_app. cbn [length]. lia.
Qed.

Lemma my_allocator_whole c fuel s buf l1 t l2 sz q :
  arena_is s buf (l1 ++ t :: l2) ->
  sz <> 0 ->
  0 <= block_size sz ->
  Forall (skipped (block_size sz)) l1 ->
  busy t = false ->
  block_size sz <= size t <= block_size sz + 4 * sizeof_tag ->
  q = buf + total l1 + sizeof_tag ->
  (S (length (l1 ++ t :: l2)) < fuel)%nat ->
  exists s',
    my_allocator fuel sz c s = Done q s' /\
    arena_is s' buf (l1 ++ mkTag (size t) true :: l2).
Proof.
  intros Hat Hsz H0 Hsk Hfree Hfit -> Hfuel.
  pose proof Hat as (Hb & He & Ha & Hok).
  rewrite length_app in Hfuel. cbn [length] in Hfuel.
  destruct (myalloc_whole_core c fuel s l1 t l2 sz Ha Hok Hsz H0 Hsk
              Hfree Hfit ltac:(lia)) as (s' & Hrun & Hb' & He' & Ha').
  exists s'. rewrite Hb in Hrun.
  apply (my_allocator_after c fuel s s' buf _ _ sz _ Hat Hrun Hb' He' Ha').
  rewrite length_app. cbn [length]. lia.
Qed.

Lemma my_allocator_none c fuel s buf l sz :
  arena_is s buf l ->
  Forall (skipped (block_size sz)) l ->
  (length l < fuel)%nat ->
  my_allocator fuel sz c s = Done nullptr s.
Proof.
  intros Hat Hsk Hfuel. pose proof Hat as (Hb & He & Ha & Hok).
  pose proof (myalloc_out_of_memory c fuel s l sz Ha Hsk Hfuel) as Hrun.
  apply (my_allocator_after c fuel s s buf l l sz _ Hat Hrun); auto.
Qed.

Lemma my_deleter_release c fuel s buf l off l' :
  arena_is s buf l ->
  release l off = Some l' ->
  (length l' < fuel)%nat ->
  exists s',
    my_deleter fuel (buf + off) c s = Done tt s' /\ arena_is s' buf l'.
Proof.
  intros Hat Hrel Hfuel. pose proof Hat as (Hb & He & Ha & Hok).
  unfold release in Hrel.
  destruct (locate l off) as [[[l1 t] l2]|] eqn:E; [|discriminate].
  destruct (busy t) eqn:Hbusy; [|discriminate].
  injection Hrel as <-.
  apply locate_sound in E. destruct E as [-> ->].
  destruct (myfree_blocks c s l1 t l2 (buf + (total l1 + sizeof_tag))
              Ha Hok Hbusy ltac:(unfold payload_at; lia))
    as (s' & Hrun & Hb' & He' & Ha').
  destruct (mydump_returns c s' _ fuel Ha' Hfuel) as (out & Hd).
  exists s'. unfold my_deleter.
  rewrite (bind_done _ _ _ _ _ _ Hrun), (bind_done _ _ _ _ _ _ Hd).
  split; [reflexivity|]. eapply arena_is_same; eauto.
Qed.

(** Zeroing at most the payload of a block keeps the partition. *)
Lemma memset_zero_keeps_arena c partial s buf l1 u l2 p n :
  arena_is s buf (l1 ++ u :: l2) ->
  p = buf + total l1 + sizeof_tag ->
  n <= size u - 2 * sizeof_tag ->
  exists s',
    memset_zero partial p n c s = Done tt s' /\
    arena_is s' buf (l1 ++ u :: l2).
Proof.
  intros Hat -> Hn. pose proof Hat as (Hb & He & Ha & Hok).
  eexists. split; [reflexivity|].
  eapply arena_is_same; [exact Hat | reflexivity | reflexivity |].
  unfold arena. cbn [heap mem_begin mem_end].
  apply (blocks_payload_write (heap s)); [exact Ha|].
  intros x Hx. rewrite Hb in Hx. unfold sizeof_tag in *.
  destruct (Z.leb_spec (buf + total l1 + 8) x);
    destruct (Z.leb_spec (x + 8) (buf + total l1 + 8 + n));
    cbn [andb]; try lia;
    destruct (Z.ltb_spec (buf + total l1 + 8 - 8) x);
    destruct (Z.ltb_spec x (buf + total l1 + 8 + n));
    cbn [andb]; try lia; reflexivity.
Qed.

Lemma block_size_1008 : block_size 1008 = 1024.
Proof. reflexivity. Qed.

Ltac assert_passes :=
  rewrite bind_assert
    by (unfold nullptr;
        repeat match goal with
               | |- context [?a =? ?b] =>
                   destruct (Z.eqb_spec a b); try lia
               end; reflexivity).

(** X17. The repository's own test passes.  With the array [buffer] at any
    non-null address other than the previous [mem::end], with any prior
    memory and whatever the three [memset] calls leave in the tags they
    overlap in part, [test_myalloc] runs to its end, with or without
    assertions: none of its own assertions and none of the allocator's
    fails, and at the end the arena is one free block of 1024 bytes. *)
Theorem test_myalloc_passes c fuel partial s0 buffer :
  c = Relaxed \/ buffer <> mem_end s0 ->
  0 < buffer -> (5 < fuel)%nat ->
  exists s',
    test_myalloc fuel partial buffer c s0 = Done tt s' /\
    arena_is s' buffer [mkTag 1024 false].
Proof.
  intros Hc Hbuf Hfuel.
  pose proof (mysetup_run c s0 buffer 1024 Hc) as Hrun1. cbv zeta in Hrun1.
  match type of Hrun1 with _ = Done tt ?st => set (s1 := st) in * end.
  destruct (mysetup_arena c s0 buffer 1024 s1 Hrun1 Hbuf
              ltac:(unfold sizeof_tag; lia) eq_refl)
    as (Hb1 & He1 & Ha1 & Hok1).
  assert (Hat1 : arena_is s1 buffer [mkTag 1024 false])
    by (unfold arena_is; auto).
  destruct (mydump_returns c s1 _ fuel Ha1 ltac:(cbn; lia)) as (o1 & Hd1).
  unfold test_myalloc. cbv zeta.
  rewrite (bind_done _ _ _ _ _ _ Hrun1), (bind_done _ _ _ _ _ _ Hd1).
  (* p1 = my_allocator(16) *)
  destruct (my_allocator_split c fuel s1 buffer [] (mkTag 1024 false) []
              16 (buffer + 1000) Hat1)
    as (s2 & Hrun2 & Hat2);
    rewrite ?block_size_16; unfold sizeof_tag; cbn [size busy length total app];
    try lia; try reflexivity; try constructor.
  rewrite block_size_16 in Hat2. cbn [size app] in Hat2.
  rewrite (bind_done _ _ _ _ _ _ Hrun2). assert_passes.
  destruct (memset_zero_keeps_arena c partial s2 buffer
              [mkTag (1024 - 32) false] (mkTag 32 true) [] (buffer + 1000)
              16 Hat2) as (s3 & Hrun3 & Hat3);
    unfold sizeof_tag; cbn [size total]; try lia.
  rewrite (bind_done _ _ _ _ _ _ Hrun3).
  (* p2 = my_allocator(512) *)
  destruct (my_allocator_split c fuel s3 buffer [] (mkTag (1024 - 32) false)
              [mkTag 32 true] 512 (buffer + 472) Hat3)
    as (s4 & Hrun4 & Hat4);
    rewrite ?block_size_512; unfold sizeof_tag;
    cbn [size busy length total app];
    try lia; try reflexivity; try constructor.
  rewrite block_size_512 in Hat4. cbn [size app] in Hat4.
  rewrite (bind_done _ _ _ _ _ _ Hrun4). assert_passes.
  destruct (memset_zero_keeps_arena c partial s4 buffer
              [mkTag (1024 - 32 - 528) false] (mkTag 528 true)
              [mkTag 32 true] (buffer + 472) 512 Hat4)
    as (s5 & Hrun5 & Hat5);
    unfold sizeof_tag; cbn [size total]; try lia.
  rewrite (bind_done _ _ _ _ _ _ Hrun5).
  (* p3 = my_allocator(buffer_size) *)
  rewrite (bind_done _ _ _ _ _ _
             (my_allocator_none c fuel s5 buffer _ 1024 Hat5
                ltac:(rewrite block_size_1024;
                      repeat constructor; unfold skipped; cbn [size busy];
                      auto; right; lia)
                ltac:(cbn; lia))).
  assert_passes.
  (* p3 = my_allocator(12) *)
  destruct (my_allocator_split c fuel s5 buffer []
              (mkTag (1024 - 32 - 528) false)
              [mkTag 528 true; mkTag 32 true] 12 (buffer + 440) Hat5)
    as (s6 & Hrun6 & Hat6);
    rewrite ?block_size_12; unfold sizeof_tag;
    cbn [size busy length total app];
    try lia; try reflexivity; try constructor.
  rewrite block_size_12 in Hat6. cbn [size app] in Hat6.
  rewrite (bind_done _ _ _ _ _ _ Hrun6). assert_passes.
  destruct (memset_zero_keeps_arena c partial s6 buffer
              [mkTag (1024 - 32 - 528 - 32) false] (mkTag 32 true)
              [mkTag 528 true; mkTag 32 true] (buffer + 440) 12 Hat6)
    as (s7 & Hrun7 & Hat7);
    unfold sizeof_tag; cbn [size total]; try lia.
  rewrite (bind_done _ _ _ _ _ _ Hrun7).
  (* my_deleter(p1); my_deleter(p2); my_deleter(p3) *)
  destruct (my_deleter_release c fuel s7 buffer _ 1000 _ Hat7 eq_refl
              ltac:(cbn; lia)) as (s8 & Hrun8 & Hat8).
  rewrite (bind_done _ _ _ _ _ _ Hrun8).
  destruct (my_deleter_release c fuel s8 buffer _ 472 _ Hat8 eq_refl
              ltac:(cbn; lia)) as (s9 & Hrun9 & Hat9).
  rewrite (bind_done _ _ _ _ _ _ Hrun9).
  destruct (my_deleter_release c fuel s9 buffer _ 440 _ Hat9 eq_refl
              ltac:(cbn; lia)) as (s10 & Hrun10 & Hat10).
  rewrite (bind_done _ _ _ _ _ _ Hrun10).
  (* p1 = my_allocator(buffer_size - sizeof(tag) * 2); my_deleter(p1) *)
  change (1024 - sizeof_tag * 2) with 1008.
  destruct (my_allocator_whole c fuel s10 buffer [] (mkTag 1024 false) []
              1008 (buffer + 8) Hat10)
    as (s11 & Hrun11 & Hat11);
    rewrite ?block_size_1008; unfold sizeof_tag;
    cbn [size busy length total app];
    try lia; try reflexivity; try constructor.
  cbn [size app] in Hat11.
  rewrite (bind_done _ _ _ _ _ _ Hrun11).
  destruct (my_deleter_release c fuel s11 buffer _ 8 _ Hat11 eq_refl
              ltac:(cbn; lia)) as (s12 & Hrun12 & Hat12).
  exists s12. split; [exact Hrun12 | exact Hat12].
Qed.

Lemma test_myalloc_passes_witness :
  exists s',
    test_myalloc 6 zero_heap 4096 Strict boot = Done tt s' /\
    arena_is s' 4096 [mkTag 1024 false].
Proof.
  apply (test_myalloc_passes Strict 6 zero_heap boot 4096).
  - right. discriminate.
  - lia.
  - lia.
Defined.

(** ** The coalescing invariant across [myalloc] and the last release *)

Lemma adjacent_free_parts l1 t l2 :
  adjacent_free (l1 ++ t :: l2) = false ->
  adjacent_free l1 = false /\ adjacent_free l2 = false.
Proof.
  intros H. rewrite adjacent_free_app, adjacent_free_cons in H.
  destruct (adjacent_free l1), (adjacent_free l2); auto;
    rewrite ?orb_true_r in H; cbn in H; discriminate.
Qed.

(** X18. For a request [sz] with [0 < sz <= 2^64 - 24], [myalloc] keeps the
    coalescing invariant: when no two adjacent blocks are free before the
    call, none are after it, whether it fails, takes a block whole or
    splits one. *)
Theorem myalloc_keeps_no_adjacent_free c fuel s l sz :
  arena s l -> arena_ok s ->
  adjacent_free l = false ->
  0 < sz -> sz + 23 < 2 ^ 64 ->
  (length l < fuel)%nat ->
  exists p s' l',
    myalloc fuel sz c s = Done p s' /\
    arena s' l' /\ adjacent_free l' = false.
Proof.
  intros Ha Hok Hnaf H0 H1 Hfuel.
  destruct (myalloc_cases c fuel s l sz Ha Hok H0 H1 Hfuel)
    as (p & s' & l' & Hrun & _ & _ & Ha' & Hres).
  exists p, s', l'. split; [exact Hrun|]. split; [exact Ha'|].
  destruct Hres as [Hsk | l1 t l2 sa -> Hsk Hfree Hfit
                        | l1 t l2 sa -> Hsk Hfree Hbig].
  - exact Hnaf.
  - destruct (adjacent_free_parts _ _ _ Hnaf) as [N1 N2].
    rewrite adjacent_free_app, adjacent_free_cons, N1, N2. cbn [busy negb].
    now rewrite andb_false_r.
  - destruct (adjacent_free_parts _ _ _ Hnaf) as [N1 N2].
    destruct (free_neighbours _ _ _ Hfree Hnaf) as [Hl Hr].
    rewrite adjacent_free_app, !adjacent_free_cons, N1, N2, Hl.
    cbn [busy negb head_busy]. now rewrite andb_false_r.
Qed.

Lemma myalloc_keeps_no_adjacent_free_witness :
  exists p s' l',
    myalloc 4 16 Strict (arena_at_4096 three_blocks) = Done p s' /\
    arena s' l' /\ adjacent_free l' = false.
Proof.
  apply (myalloc_keeps_no_adjacent_free Strict 4
           (arena_at_4096 three_blocks) three_blocks 16).
  - arena_by_computation.
  - arena_by_computation.
  - reflexivity.
  - lia.
  - lia.
  - cbn. lia.
Defined.

Lemma all_free_short l :
  adjacent_free l = false ->
  Forall (fun u => busy u = false) l ->
  l = [] \/ exists q, l = [q].
Proof.
  intros Hn Hf. destruct l as [|a [|b l]]; [now left | right; now exists a |].
  exfalso. inversion Hf as [|? ? Ha Hf']; subst.
  inversion Hf' as [|? ? Hb _]; subst.
  cbn in Hn. rewrite Ha, Hb in Hn. discriminate.
Qed.

(** X19. Releasing the last busy block merges everything: when no two
    adjacent blocks are free and the block at [p] is the only busy one,
    [myfree p] leaves the arena as one free block that spans it from
    [mem::begin] to [mem::end]. *)
Theorem last_release_leaves_one_free_block c s l1 t l2 p :
  arena s (l1 ++ t :: l2) -> arena_ok s ->
  adjacent_free (l1 ++ t :: l2) = false ->
  busy t = true ->
  Forall (fun u => busy u = false) l1 ->
  Forall (fun u => busy u = false) l2 ->
  payload_at s l1 p ->
  exists s',
    myfree p c s = Done tt s' /\
    mem_begin s' = mem_begin s /\ mem_end s' = mem_end s /\
    arena s' [mkTag (mem_end s - mem_begin s) false].
Proof.
  intros Ha Hok Hnaf Hbusy Hf1 Hf2 Hp.
  destruct (myfree_blocks c s l1 t l2 p Ha Hok Hbusy Hp)
    as (s' & Hrun & Hb & He & Ha').
  exists s'. split; [exact Hrun|]. split; [exact Hb|]. split; [exact He|].
  pose proof (blocks_total _ _ _ _ Ha) as Htot.
  rewrite total_app in Htot. cbn [total] in Htot.
  destruct (adjacent_free_parts _ _ _ Hnaf) as [N1 N2].
  replace (mkTag (mem_end s - mem_begin s) false)
    with (mkTag (total l1 + size t + total l2) false) by (f_equal; lia).
  destruct (all_free_short l1 N1 Hf1) as [-> | [q ->]];
    destruct (all_free_short l2 N2 Hf2) as [-> | [n ->]];
    unfold freed in Ha'; cbn [coalesce_left coalesce_right app fst snd] in Ha';
    repeat match goal with
           | H : Forall _ [?x] |- _ =>
               let E := fresh "E" in
               assert (E : busy x = false) by (now inversion H); clear H
           end;
    rewrite ?E, ?E0 in Ha'; cbn [coalesce_right app size busy total] in *.
  - now rewrite Z.add_0_r.
  - now rewrite Z.add_0_r.
  - replace (size q + 0 + size t + 0) with (size q + size t) by lia.
    exact Ha'.
  - replace (size q + 0 + size t + (size n + 0))
      with (size q + size t + size n) by lia.
    exact Ha'.
Qed.

Lemma last_release_leaves_one_free_block_witness :
  exists s',
    myfree 4568 Strict (arena_at_4096 three_blocks) = Done tt s' /\
    mem_begin s' = mem_begin (arena_at_4096 three_blocks) /\
    mem_end s' = mem_end (arena_at_4096 three_blocks) /\
    arena s' [mkTag (mem_end (arena_at_4096 three_blocks)
                     - mem_begin (arena_at_4096 three_blocks)) false].
Proof.
  apply (last_release_leaves_one_free_block Strict
           (arena_at_4096 three_blocks)
           [mkTag 464 false] (mkTag 528 true) [mkTag 32 false] 4568).
  - arena_by_computation.
  - arena_by_computation.
  - reflexivity.
  - reflexivity.
  - repeat constructor.
  - repeat constructor.
  - reflexivity.
Defined.
